(** * The step execution engine of the ubuntu scripts

    A shallow embedding of [scripts/library/classes.py] and
    [scripts/library/utilities.py]: the [Environment] object, the [Labels]
    queue and the command runner ([run_one_command], [run_many_arguments],
    [min_python_version]), together with the Python built-ins they call.

    Conventions.
    - A Python [str] is the list of its code points ([N]); [len] is
      [length].  [lit] turns a literal into such a list.
    - A call either returns a value or raises: [outcome].
    - Code that prints, spawns processes or mutates an object is a function
      of an explicit state, written in the monad [M]. *)

From Stdlib Require Import String Ascii DecimalString.
From Stdlib Require Import List NArith ZArith Lia Bool.
Import ListNotations.

Set Implicit Arguments.

(** ** Strings *)

Definition char := N.
Definition str := list char.

Definition lit (s : string) : str :=
  map N_of_ascii (list_ascii_of_string s).
Arguments lit s%_string.

Definition NL : char := 10%N.
Definition ESC : char := 27%N.

Fixpoint str_eqb (a b : str) : bool :=
  match a, b with
  | [], [] => true
  | x :: a', y :: b' => N.eqb x y && str_eqb a' b'
  | _, _ => false
  end.

(** Membership of a character in one of the character classes. *)
Definition char_in (c : char) (cls : str) : bool :=
  existsb (N.eqb c) cls.

(** [str(n)] / [f'{n}'] for a Python [int]. *)
Definition str_of_int (z : Z) : str :=
  lit (NilZero.string_of_int (Z.to_int z)).

(** *** [str.split(sep)] for a one-character separator.

    The result is never empty: [''.split('\n') == ['']]. *)
Fixpoint str_split (sep : char) (s : str) : list str :=
  match s with
  | [] => [[]]
  | c :: s' =>
      if N.eqb c sep then [] :: str_split sep s'
      else match str_split sep s' with
           | [] => [[c]]
           | tok :: toks => (c :: tok) :: toks
           end
  end.

(** *** [str.strip()]

    Without argument, [strip] removes the characters for which
    [str.isspace] holds (CPython's [_PyUnicode_IsWhitespace]). *)
Definition isspace (c : char) : bool :=
  ((9 <=? c) && (c <=? 13) || (28 <=? c) && (c <=? 32)
   || (c =? 133) || (c =? 160) || (c =? 5760)
   || (8192 <=? c) && (c <=? 8202)
   || (c =? 8232) || (c =? 8233) || (c =? 8239) || (c =? 8287)
   || (c =? 12288))%N.

Fixpoint str_lstrip (s : str) : str :=
  match s with
  | [] => []
  | c :: s' => if isspace c then str_lstrip s' else s
  end.

Definition str_rstrip (s : str) : str := rev (str_lstrip (rev s)).

Definition str_strip (s : str) : str := str_rstrip (str_lstrip s).

(** *** [str.replace(old, new)]

    Every non-overlapping occurrence of [old], found from the left, is
    replaced (no [count] argument).  [skip] counts the characters of a
    matched occurrence that are still to be passed over.  With an empty
    [old], [new] is inserted before every character and at the end. *)
Fixpoint startswith (p s : str) : bool :=
  match p, s with
  | [], _ => true
  | a :: p', b :: s' => N.eqb a b && startswith p' s'
  | _ :: _, [] => false
  end.

Fixpoint replace_from (old new : str) (skip : nat) (s : str) : str :=
  match s with
  | [] => []
  | c :: s' =>
      match skip with
      | S k => replace_from old new k s'
      | O =>
          if startswith old s
          then new ++ replace_from old new (length old - 1) s'
          else c :: replace_from old new 0 s'
      end
  end.

Definition str_replace (s old new : str) : str :=
  match old with
  | [] => new ++ flat_map (fun c => c :: new) s
  | _ :: _ => replace_from old new 0 s
  end.

(** *** Format specification [f'{s:.<{width}}']: left-justify, fill with dots. *)
Definition DOT : char := 46%N.

Definition ljust_dots (s : str) (width : nat) : str :=
  s ++ repeat DOT (width - length s).

(** ** Exceptions and outcomes *)

Inductive exn : Type :=
| ValueError (msg : str)
| IndexError (msg : str)
| UnboundLocalError (name : str)
| ExhaustedListError
| SystemExit (code : Z)
| OSError (errno : Z)
| OverflowError (msg : str).

Inductive outcome (A : Type) : Type :=
| Returned (a : A)
| Raised (x : exn).
Arguments Raised {A} x.

(** ** [shlex.split(s)]

    [shlex.split] builds [shlex(s, posix=True)], sets [whitespace_split]
    and clears [commenters], then collects the tokens of [read_token]
    until it yields [None].  [commenters] and [punctuation_chars] are
    empty: no character is in them, so their branches, the state ['c'] and
    the push-back queue are never used and are left out. *)

Definition shlex_whitespace : str := [32; 9; 13; 10]%N.
Definition shlex_quotes : str := [39; 34]%N.
Definition shlex_escape : str := [92]%N.
Definition shlex_escapedquotes : str := [34]%N.

Definition shlex_wordchars (c : char) : bool :=
  ((48 <=? c) && (c <=? 57) || (65 <=? c) && (c <=? 90) || (c =? 95)
   || (97 <=? c) && (c <=? 122)
   || (192 <=? c) && (c <=? 214) || (216 <=? c) && (c <=? 246)
   || (248 <=? c) && (c <=? 255))%N.

Definition SPACE : char := 32%N.   (* lexer state ' ' *)
Definition WORD : char := 97%N.    (* lexer state 'a' *)

Definition truthy (s : str) : bool :=
  match s with [] => false | _ :: _ => true end.

(** The end of one [read_token] call: the token is handed to the iterator,
    except that an unquoted empty token is [None] and ends the iteration. *)
Definition emit (quoted : bool) (token : str)
    (later : outcome (list str)) : outcome (list str) :=
  if negb quoted && negb (truthy token) then Returned []
  else match later with
       | Returned toks => Returned (token :: toks)
       | Raised x => Raised x
       end.

(** The loop of [read_token], run over the whole input: [state] and [token]
    are the lexer's attributes, [quoted] and [escapedstate] the locals of
    the current call.  A [break] emits the token and starts the next call
    with fresh locals; the empty [input] is the end of the stream. *)
Fixpoint read_tokens (input : str) (state : char) (token : str)
    (quoted : bool) (escapedstate : char) : outcome (list str) :=
  match input with
  | [] =>
      if N.eqb state SPACE then emit quoted token (Returned [])
      else if char_in state shlex_quotes
      then Raised (ValueError (lit "No closing quotation"))
      else if char_in state shlex_escape
      then Raised (ValueError (lit "No escaped character"))
      else emit quoted token (Returned [])
  | nextchar :: rest =>
      if N.eqb state SPACE then
        if char_in nextchar shlex_whitespace then
          if truthy token || quoted
          then emit quoted token (read_tokens rest state [] false SPACE)
          else read_tokens rest state token quoted escapedstate
        else if char_in nextchar shlex_escape then
          read_tokens rest nextchar token quoted WORD
        else if shlex_wordchars nextchar then
          read_tokens rest WORD [nextchar] quoted escapedstate
        else if char_in nextchar shlex_quotes then
          read_tokens rest nextchar token quoted escapedstate
        else
          read_tokens rest WORD [nextchar] quoted escapedstate
      else if char_in state shlex_quotes then
        if N.eqb nextchar state then
          read_tokens rest WORD token true escapedstate
        else if char_in nextchar shlex_escape
                && char_in state shlex_escapedquotes then
          read_tokens rest nextchar token true state
        else
          read_tokens rest state (token ++ [nextchar]) true escapedstate
      else if char_in state shlex_escape then
        let token :=
          if char_in escapedstate shlex_quotes
             && negb (N.eqb nextchar state)
             && negb (N.eqb nextchar escapedstate)
          then token ++ [state] else token in
        read_tokens rest escapedstate (token ++ [nextchar]) quoted escapedstate
      else
        if char_in nextchar shlex_whitespace then
          if truthy token || quoted
          then emit quoted token (read_tokens rest SPACE [] false SPACE)
          else read_tokens rest SPACE token quoted escapedstate
        else if char_in nextchar shlex_quotes then
          read_tokens rest nextchar token quoted escapedstate
        else if char_in nextchar shlex_escape then
          read_tokens rest nextchar token quoted WORD
        else
          read_tokens rest state (token ++ [nextchar]) quoted escapedstate
  end.

Definition shlex_split (s : str) : outcome (list str) :=
  read_tokens s SPACE [] false SPACE.

(** ** Built-in list operations *)

(** The range of a C [Py_ssize_t] (64 bits): [sys.maxsize] is
    [PY_SSIZE_T_MAX], and no list is longer. *)
Definition PY_SSIZE_T_MAX : Z := 9223372036854775807.
Definition PY_SSIZE_T_MIN : Z := - PY_SSIZE_T_MAX - 1.

Fixpoint remove_nth {A : Type} (i : nat) (l : list A) : list A :=
  match l with
  | [] => []
  | x :: l' => match i with O => l' | S j => x :: remove_nth j l' end
  end.

(** The body of [list.pop], once the index is a [Py_ssize_t]: an empty
    list raises, a negative index counts from the end, and an index still
    outside the list raises. *)
Definition list_pop_impl {A : Type} (l : list A) (index : Z)
    : outcome (A * list A) :=
  match l with
  | [] => Raised (IndexError (lit "pop from empty list"))
  | d :: _ =>
      let size := Z.of_nat (length l) in
      let index := if (index <? 0)%Z then (index + size)%Z else index in
      if (index <? 0)%Z || (size <=? index)%Z
      then Raised (IndexError (lit "pop index out of range"))
      else Returned (nth (Z.to_nat index) l d, remove_nth (Z.to_nat index) l)
  end.

(** [list.pop(index)].  The index is first converted to a [Py_ssize_t]:
    outside that range the call raises [OverflowError], whatever the list
    holds, before the list is looked at. *)
Definition list_pop {A : Type} (l : list A) (index : Z)
    : outcome (A * list A) :=
  if (index <? PY_SSIZE_T_MIN)%Z || (PY_SSIZE_T_MAX <? index)%Z
  then Raised (OverflowError
                 (lit "Python int too large to convert to C ssize_t"))
  else list_pop_impl l index.

(** [max(l, key=len)]: the first element of greatest length. *)
Fixpoint max_len_from (best : str) (l : list str) : str :=
  match l with
  | [] => best
  | x :: l' =>
      if length best <? length x then max_len_from x l'
      else max_len_from best l'
  end.

Definition max_key_len (l : list str) : outcome str :=
  match l with
  | [] => Raised (ValueError (lit "max() arg is an empty sequence"))
  | x :: l' => Returned (max_len_from x l')
  end.

(** ** Stateful code: a state and exception monad *)

Definition M (S A : Type) : Type := S -> outcome A * S.

Definition ret {S A : Type} (a : A) : M S A := fun s => (Returned a, s).

Definition raise {S A : Type} (x : exn) : M S A := fun s => (Raised x, s).

Definition bind {S A B : Type} (m : M S A) (k : A -> M S B) : M S B :=
  fun s =>
    match m s with
    | (Returned a, s') => k a s'
    | (Raised x, s') => (Raised x, s')
    end.

Definition gets {S A : Type} (f : S -> A) : M S A :=
  fun s => (Returned (f s), s).

Definition modify {S : Type} (f : S -> S) : M S unit :=
  fun s => (Returned tt, f s).

(** A pure call that may raise. *)
Definition call {S A : Type} (o : outcome A) : M S A := fun s => (o, s).

Declare Scope monad_scope.
Delimit Scope monad_scope with monad.
Notation "x <- m ;; k" := (bind m (fun x => k))
  (at level 61, m at next level, right associativity) : monad_scope.
Notation "m ;; k" := (bind m (fun _ => k))
  (at level 61, right associativity) : monad_scope.
Local Open Scope monad_scope.

(** ** What the interpreter and the operating system provide

    [subprocess.run] is taken as given: run on a host with an argument
    vector and the redirections, it changes the host and returns a
    [CompletedProcess] or raises.  So are [pathlib] and the [repr] of a
    list of strings. *)

Record CompletedProcess : Type := {
  args : list str;
  returncode : Z;
  stdout : option (list N);
  stderr : option (list N)
}.

Class Platform : Type := {
  Host : Type;
  TextIO : Type;
  Path : Type;
  Path_home : Path;
  Path_file_resolve_parents_2 : Path;
  Path_truediv : Path -> str -> Path;
  subprocess_run :
    list str -> bool -> option TextIO -> option TextIO ->
    Host -> outcome CompletedProcess * Host;
  repr_list : list str -> str
}.

Section Engine.

Context {platform : Platform}.

(** ** classes.py: [Environment] *)

Record Environment : Type := {
  MAJOR : Z;
  MINOR : Z;
  PASS : str;
  FAIL : str;
  DEBUG : bool;
  RESULT : option CompletedProcess;
  HOME : Path;
  UBUNTU : Path;
  OHMYZSH : Path;
  SCRIPTS : Path;
  SHELL : Path;
  SYSTEM : Path;
  VIM : Path
}.

Definition GREEN : str := ESC :: lit "[0;32;49m".
Definition RED : str := ESC :: lit "[0;31;49m".
Definition COLOR_END : str := ESC :: lit "[0m".

Definition Environment_init : Environment :=
  let home := Path_home in
  let ubuntu := Path_file_resolve_parents_2 in
  {| MAJOR := 3;
     MINOR := 10;
     PASS := GREEN ++ [10004%N] ++ COLOR_END;
     FAIL := RED ++ [10008%N] ++ COLOR_END;
     DEBUG := false;
     RESULT := None;
     HOME := home;
     UBUNTU := ubuntu;
     OHMYZSH := Path_truediv home (lit ".oh-my-zsh");
     SCRIPTS := Path_truediv ubuntu (lit "scripts");
     SHELL := Path_truediv ubuntu (lit "shell");
     SYSTEM := Path_truediv ubuntu (lit "system");
     VIM := Path_truediv ubuntu (lit "vim") |}.

Definition set_DEBUG (b : bool) (e : Environment) : Environment :=
  {| MAJOR := MAJOR e; MINOR := MINOR e; PASS := PASS e; FAIL := FAIL e;
     DEBUG := b; RESULT := RESULT e; HOME := HOME e;
     UBUNTU := UBUNTU e; OHMYZSH := OHMYZSH e; SCRIPTS := SCRIPTS e;
     SHELL := SHELL e; SYSTEM := SYSTEM e; VIM := VIM e |}.

Definition set_RESULT (r : option CompletedProcess) (e : Environment)
    : Environment :=
  {| MAJOR := MAJOR e; MINOR := MINOR e; PASS := PASS e; FAIL := FAIL e;
     DEBUG := DEBUG e; RESULT := r; HOME := HOME e;
     UBUNTU := UBUNTU e; OHMYZSH := OHMYZSH e; SCRIPTS := SCRIPTS e;
     SHELL := SHELL e; SYSTEM := SYSTEM e; VIM := VIM e |}.

(** ** classes.py: [Labels] *)

Record Labels : Type := {
  labels : list str;
  pad : nat
}.

(** [[t for token in tokens if (t := token.strip())]] *)
Fixpoint stripped_tokens (tokens : list str) : list str :=
  match tokens with
  | [] => []
  | token :: tokens' =>
      let t := str_strip token in
      if truthy t then t :: stripped_tokens tokens'
      else stripped_tokens tokens'
  end.

Definition Labels_init (s : str) : outcome Labels :=
  let labels := stripped_tokens (str_split NL s) in
  match max_key_len labels with
  | Returned longest => Returned {| labels := labels; pad := length longest + 3 |}
  | Raised x => Raised x
  end.

(** A [Labels] object in use: the object and what was written to the
    terminal. *)
Record LabelsIO : Type := {
  self : Labels;
  console : str
}.

Definition set_labels (l : list str) : M LabelsIO unit :=
  modify (fun s => {| self := {| labels := l; pad := pad (self s) |};
                      console := console s |}).

(** [print(text, end='', flush=True)] and [print(text)]. *)
Definition write (text : str) : M LabelsIO unit :=
  modify (fun s => {| self := self s; console := console s ++ text |}).

Definition Labels_next : M LabelsIO unit :=
  l <- gets (fun s => labels (self s)) ;;
  if length l =? 0 then raise ExhaustedListError
  else
    popped <- call (list_pop l 0) ;;
    set_labels (snd popped) ;;
    width <- gets (fun s => pad (self s)) ;;
    write (ljust_dots (fst popped) width).

Definition Labels_pop_first : M LabelsIO str :=
  l <- gets (fun s => labels (self s)) ;;
  if length l =? 0 then raise ExhaustedListError
  else
    popped <- call (list_pop l 0) ;;
    set_labels (snd popped) ;;
    ret (fst popped).

Definition Labels_pop_last : M LabelsIO str :=
  l <- gets (fun s => labels (self s)) ;;
  if length l =? 0 then raise ExhaustedListError
  else
    popped <- call (list_pop l (-1)) ;;
    set_labels (snd popped) ;;
    ret (fst popped).

Definition Labels_pop_item (index : Z) : M LabelsIO str :=
  l <- gets (fun s => labels (self s)) ;;
  if length l =? 0 then raise ExhaustedListError
  else
    match list_pop l index with
    | Returned popped =>
        set_labels (snd popped) ;;
        ret (fst popped)
    | Raised (IndexError e) =>
        write (e ++ lit ". Attempting to pop index " ++ str_of_int index
                 ++ lit "." ++ [NL]) ;;
        write (lit "Terminating program." ++ [NL]) ;;
        raise (SystemExit 1)
    | Raised x => raise x
    end.

Definition Labels_dump (num_labels : Z) : M LabelsIO unit :=
  l <- gets (fun s => labels (self s)) ;;
  if (num_labels <=? 0)%Z || (Z.of_nat (length l) <? num_labels)%Z
  then ret tt
  else set_labels (skipn (Z.to_nat num_labels) l).

(** ** utilities.py: the command runner *)

(** One run of a script: the [Environment] object [e] that every call
    receives, the host, the calls made to [subprocess.run] so far with
    their outcomes, and what was written to the terminal. *)
Record Session : Type := {
  env : Environment;
  host : Host;
  spawned : list (list str * outcome CompletedProcess);
  sys_stdout : str
}.

Definition print (text : str) : M Session unit :=
  modify (fun s => {| env := env s; host := host s; spawned := spawned s;
                      sys_stdout := sys_stdout s ++ text ++ [NL] |}).

Definition sp_run (argv : list str) (capture : bool)
    (std_in std_out : option TextIO) : M Session CompletedProcess :=
  fun s =>
    let (r, h) := subprocess_run argv capture std_in std_out (host s) in
    (r, {| env := env s; host := h;
           spawned := spawned s ++ [(argv, r)];
           sys_stdout := sys_stdout s |}).

Definition assign_RESULT (r : CompletedProcess) : M Session unit :=
  modify (fun s => {| env := set_RESULT (Some r) (env s); host := host s;
                      spawned := spawned s; sys_stdout := sys_stdout s |}).

Definition run_one_command (cmd : str) (capture : bool)
    (std_in std_out : option TextIO) : M Session str :=
  e <- gets env ;;
  if DEBUG e then
    argv <- call (shlex_split cmd) ;;
    print ([NL] ++ lit "Running: " ++ repr_list argv) ;;
    ret (PASS e)
  else
    argv <- call (shlex_split cmd) ;;
    result <- sp_run argv capture std_in std_out ;;
    assign_RESULT result ;;
    if negb (returncode result =? 0)%Z then ret (FAIL e)
    else ret (PASS e).

(** The loop of [run_many_arguments]; [result] is the local variable of
    that name, [None] while nothing has been assigned to it. *)
Fixpoint run_many_loop (cmd marker : str) (targets : list str)
    (result : option str) : M Session str :=
  match targets with
  | [] =>
      match result with
      | Some r => ret r
      | None => raise (UnboundLocalError (lit "result"))
      end
  | target :: targets' =>
      r <- run_one_command (str_replace cmd marker target) true None None ;;
      e <- gets env ;;
      if str_eqb r (FAIL e) then ret r
      else run_many_loop cmd marker targets' (Some r)
  end.

Definition run_many_arguments (cmd : str) (targets : list str)
    (marker : str) : M Session str :=
  run_many_loop cmd marker targets None.

Definition TARGET : str := lit "TARGET".

(** [sys.version_info], as far as it is read. *)
Record version_info : Type := {
  major : Z;
  minor : Z
}.

Definition min_python_version (sys_version_info : version_info)
    (e : Environment) : option str :=
  let msg := lit "Minimum required Python version is "
               ++ str_of_int (MAJOR e) ++ lit "." ++ str_of_int (MINOR e) in
  if (major sys_version_info <? MAJOR e)%Z
     || (minor sys_version_info <? MINOR e)%Z
  then Some msg
  else None.

End Engine.

(** ** Vocabulary of the specification

    The definitions below are not part of the scripts; they say, in the
    specification's terms, what the theorems compare the code with. *)

(** [sep.join(pieces)] *)
Fixpoint join (sep : str) (pieces : list str) : str :=
  match pieces with
  | [] => []
  | [p] => p
  | p :: rest => p ++ sep ++ join sep rest
  end.

(** [old] occurs in [s]. *)
Definition occurs (old s : str) : Prop :=
  exists before after, s = before ++ old ++ after.

(** [pieces] are the stretches of a template between the occurrences of
    [marker], as found from the left: the marker does not begin inside a
    piece that a marker follows, and the last piece is free of it. *)
Fixpoint marker_free_pieces (marker : str) (pieces : list str) : Prop :=
  match pieces with
  | [] => False
  | [p] => ~ occurs marker p
  | p :: rest =>
      ~ occurs marker (p ++ removelast marker)
      /\ marker_free_pieces marker rest
  end.

(** The specification's wording of the substitution: only the first
    occurrence of [old] is replaced ([s.replace(old, new, 1)]). *)
Fixpoint replace_first (s old new : str) : str :=
  match s with
  | [] => match old with [] => new | _ :: _ => [] end
  | c :: s' =>
      if startswith old s then new ++ skipn (length old) s
      else c :: replace_first s' old new
  end.

(** A version meets a required minimum when it is not older: versions are
    ordered by their major number, then by their minor number. *)
Definition version_at_least (v : version_info) (req_major req_minor : Z)
    : Prop :=
  (req_major < major v \/ (major v = req_major /\ req_minor <= minor v))%Z.

Section Vocabulary.

Context {platform : Platform}.

(** Running prepared command lines one after the other with
    [run_one_command], stopping at the first failure. *)
Fixpoint run_each (cmds : list str) (result : option str)
    : M Session str :=
  match cmds with
  | [] =>
      match result with
      | Some r => ret r
      | None => raise (UnboundLocalError (lit "result"))
      end
  | c :: cmds' =>
      r <- run_one_command c true None None ;;
      e <- gets env ;;
      if str_eqb r (FAIL e) then ret r
      else run_each cmds' (Some r)
  end.

(** [n] consecutive calls of [labels.next()]. *)
Fixpoint repeat_next (n : nat) : M LabelsIO unit :=
  match n with
  | O => ret tt
  | S k => Labels_next ;; repeat_next k
  end.

End Vocabulary.

(** ** A small platform to run the model on

    The host counts the processes it has run.  It knows two programs:
    [true] exits with 0 and [false] with 1, whatever their arguments; any
    other program is not found. *)

Definition demo_run (argv : list str) (capture : bool)
    (std_in std_out : option unit) (h : nat)
    : outcome CompletedProcess * nat :=
  let completed code :=
    {| args := argv; returncode := code;
       stdout := if capture then Some [] else None;
       stderr := if capture then Some [] else None |} in
  match argv with
  | [] => (Raised (IndexError (lit "list index out of range")), h)
  | prog :: _ =>
      if str_eqb prog (lit "true") then (Returned (completed 0%Z), S h)
      else if str_eqb prog (lit "false") then (Returned (completed 1%Z), S h)
      else (Raised (OSError 2), h)
  end.

Definition demo_repr (l : list str) : str :=
  lit "[" ++ join (lit ", ") (map (fun t => lit "'" ++ t ++ lit "'") l)
    ++ lit "]".

Definition demo_platform : Platform :=
  {| Host := nat;
     TextIO := unit;
     Path := str;
     Path_home := lit "/home/user";
     Path_file_resolve_parents_2 := lit "/home/user/ubuntu";
     Path_truediv := fun p name => p ++ lit "/" ++ name;
     subprocess_run := demo_run;
     repr_list := demo_repr |}.

Definition demo_session (debug : bool) : @Session demo_platform :=
  {| env := set_DEBUG debug (@Environment_init demo_platform);
     host := O;
     spawned := [];
     sys_stdout := [] |}.

(** ** Sample inputs *)

(** The text block of the scenario: ["  Step One \n\nStep Two\n  "]. *)
Definition scenario_text : str :=
  lit "  Step One " ++ [NL; NL] ++ lit "Step Two" ++ [NL] ++ lit "  ".

(** A whitespace-only block: ["  \n\t"]. *)
Definition blank_text : str := lit "  " ++ [NL; 9%N].

(** ** Vocabulary for the queue in use *)

(** A string without white space at either end. *)
Definition trimmed (l : str) : Prop :=
  (forall c t, l = c :: t -> isspace c = false)
  /\ (forall t c, l = t ++ [c] -> isspace c = false).

(** What the constructor leaves of a line that holds a label. *)
Definition label_text (l : str) : Prop :=
  l <> [] /\ trimmed l /\ ~ In NL l.

(** [a] is [b] with some elements left out, the others in their order. *)
Inductive subseq {A : Type} : list A -> list A -> Prop :=
| subseq_nil : subseq [] []
| subseq_skip (x : A) (a b : list A) : subseq a b -> subseq a (x :: b)
| subseq_keep (x : A) (a b : list A) : subseq a b -> subseq (x :: a) (x :: b).

(** The calls a script can make on a [Labels] object. *)
Inductive LabelsCall : Type :=
| CallNext
| CallPopFirst
| CallPopLast
| CallPopItem (index : Z)
| CallDump (num_labels : Z).

Definition call_labels (c : LabelsCall) : M LabelsIO unit :=
  match c with
  | CallNext => Labels_next
  | CallPopFirst => _ <- Labels_pop_first ;; ret tt
  | CallPopLast => _ <- Labels_pop_last ;; ret tt
  | CallPopItem index => _ <- Labels_pop_item index ;; ret tt
  | CallDump num_labels => Labels_dump num_labels
  end.

(** Calls made one after the other, up to the first that raises. *)
Fixpoint call_all (cs : list LabelsCall) : M LabelsIO unit :=
  match cs with
  | [] => ret tt
  | c :: cs' => call_labels c ;; call_all cs'
  end.

(** [n] consecutive calls of [labels.pop_first()], the labels dropped. *)
Fixpoint repeat_pop_first (n : nat) : M LabelsIO unit :=
  match n with
  | O => ret tt
  | S k => _ <- Labels_pop_first ;; repeat_pop_first k
  end.

(** What every call on a [Labels] object keeps: the padding width, the
    order of the labels (some may be gone) and what is already printed. *)
Definition labels_kept (st st' : LabelsIO) : Prop :=
  pad (self st') = pad (self st)
  /\ subseq (labels (self st')) (labels (self st))
  /\ exists more, console st' = console st ++ more.

(** ** Vocabulary for command lines *)

(** A character that [shlex] takes as part of a word wherever it stands:
    no white space, no quote, no backslash. *)
Definition plain_char (c : char) : bool :=
  negb (char_in c shlex_whitespace) && negb (char_in c shlex_quotes)
  && negb (char_in c shlex_escape).

(** A non-empty word of such characters. *)
Definition plain_word (w : str) : Prop :=
  w <> [] /\ forallb plain_char w = true.

Section TraceVocabulary.

Context {platform : Platform}.

(** What dry-run mode prints for a command line that can be split. *)
Definition dry_run_trace (cmd : str) : str :=
  match shlex_split cmd with
  | Returned argv => ([NL] ++ lit "Running: " ++ repr_list argv) ++ [NL]
  | Raised _ => []
  end.

End TraceVocabulary.

(** ** utilities.py: [wrap_tight] and [clean_str] *)

Section WrapTight.

(** [textwrap.fill(text, width)] is taken as given. *)
Variable textwrap_fill : str -> Z -> outcome str.

(** The local [clean] of [wrap_tight]. *)
Definition wrap_tight_clean (msg : str) : str :=
  join [SPACE] (stripped_tokens (str_split NL msg)).

Definition wrap_tight (msg : str) (columns : Z) : outcome str :=
  let clean := wrap_tight_clean msg in
  textwrap_fill clean columns.

End WrapTight.

(** [bytes.decode('utf-8')], strict: a byte string is the list of its
    bytes, and [None] stands for [UnicodeDecodeError].  The well-formed
    sequences are those of the Unicode standard: no overlong form, no
    surrogate, nothing above U+10FFFF. *)
Definition utf8_continuation (b : N) : bool := ((128 <=? b) && (b <=? 191))%N.

Fixpoint utf8_decode (bs : list N) : option str :=
  match bs with
  | [] => Some []
  | b0 :: r0 =>
      if (b0 <? 128)%N then option_map (cons b0) (utf8_decode r0)
      else if ((194 <=? b0) && (b0 <=? 223))%N then
        match r0 with
        | b1 :: r1 =>
            if utf8_continuation b1
            then option_map (cons ((b0 - 192) * 64 + (b1 - 128))%N)
                   (utf8_decode r1)
            else None
        | _ => None
        end
      else if ((224 <=? b0) && (b0 <=? 239))%N then
        match r0 with
        | b1 :: b2 :: r2 =>
            if ((if (b0 =? 224)%N then (160 <=? b1) && (b1 <=? 191)
                 else if (b0 =? 237)%N then (128 <=? b1) && (b1 <=? 159)
                 else utf8_continuation b1)
                && utf8_continuation b2)%N
            then option_map
                   (cons ((b0 - 224) * 4096 + (b1 - 128) * 64 + (b2 - 128))%N)
                   (utf8_decode r2)
            else None
        | _ => None
        end
      else if ((240 <=? b0) && (b0 <=? 244))%N then
        match r0 with
        | b1 :: b2 :: b3 :: r3 =>
            if ((if (b0 =? 240)%N then (144 <=? b1) && (b1 <=? 191)
                 else if (b0 =? 244)%N then (128 <=? b1) && (b1 <=? 143)
                 else utf8_continuation b1)
                && utf8_continuation b2 && utf8_continuation b3)%N
            then option_map
                   (cons ((b0 - 240) * 262144 + (b1 - 128) * 4096
                          + (b2 - 128) * 64 + (b3 - 128))%N)
                   (utf8_decode r3)
            else None
        | _ => None
        end
      else None
  end.

Definition clean_str (bstr : list N) : option str :=
  option_map str_rstrip (utf8_decode bstr).

(** [str.encode('utf-8')], the way back: [None] stands for
    [UnicodeEncodeError], raised for a surrogate. *)
Definition utf8_encode_char (c : char) : option (list N) :=
  if (c <? 128)%N then Some [c]
  else if (c <? 2048)%N then Some [192 + c / 64; 128 + c mod 64]%N
  else if (c <? 65536)%N then
    if ((55296 <=? c) && (c <=? 57343))%N then None
    else Some [224 + c / 4096; 128 + (c / 64) mod 64; 128 + c mod 64]%N
  else if (c <? 1114112)%N then
    Some [240 + c / 262144; 128 + (c / 4096) mod 64;
          128 + (c / 64) mod 64; 128 + c mod 64]%N
  else None.

Fixpoint utf8_encode (s : str) : option (list N) :=
  match s with
  | [] => Some []
  | c :: s' =>
      match utf8_encode_char c, utf8_encode s' with
      | Some bs, Some rest => Some (bs ++ rest)
      | _, _ => None
      end
  end.

(** ** utilities.py and cacheburn.py: callers of the runner *)

(** [str(path)], as an f-string renders a path. *)
Class PathText (platform : Platform) : Type := {
  Path_str : Path -> str
}.

Section Callers.

Context {platform : Platform} {path_text : PathText platform}.

Definition sync_notebooks : M Session str :=
  e <- gets env ;;
  let src := Path_str (HOME e) ++ lit "/.notebooksrepo/" in
  let dest := Path_str (HOME e) ++ lit "/notebooks" in
  let exclude := Path_str (SYSTEM e) ++ lit "/rsync_exclude.txt" in
  let options :=
    lit "-rc --exclude-from=" ++ exclude ++ lit " --delete --delete-excluded" in
  let cmd := lit "rsync " ++ src ++ lit " " ++ dest ++ lit " " ++ options in
  run_one_command cmd true None None.

(** A method call on the [labels] object of a script: it prints on the
    terminal of the session. *)
Definition on_labels {A : Type} (m : M LabelsIO A) (labels : Labels)
    : M Session (A * Labels) :=
  fun s =>
    let (r, st) := m {| self := labels; console := sys_stdout s |} in
    (match r with
     | Returned a => Returned (a, self st)
     | Raised x => Raised x
     end,
     {| env := env s; host := host s; spawned := spawned s;
        sys_stdout := console st |}).

(** [for cmd in commands: labels.next(); print(run_one_command(e, cmd))] *)
Fixpoint label_and_run (commands : list str) (labels : Labels)
    : M Session Labels :=
  match commands with
  | [] => ret labels
  | cmd :: commands' =>
      r <- on_labels Labels_next labels ;;
      verdict <- run_one_command cmd true None None ;;
      print verdict ;;
      label_and_run commands' (snd r)
  end.

Definition burn_it_up_labels : str :=
  join [NL]
    [ [];
      lit "        Deleting __pycache__ directories";
      lit "        Deleting .pytest_cache directories";
      lit "        Deleting .ipynb_checkpoints directories";
      lit "        Zapping pesky Icon files";
      lit "        Crunching annoying desktop.ini files" ].

Definition burn_it_up : M Session unit :=
  labels <- call (Labels_init burn_it_up_labels) ;;
  e <- gets env ;;
  let home := Path_truediv (HOME e) (lit "shares") in
  let base :=
    lit "find " ++ Path_str home
      ++ lit " -name DIR -type d -exec rm -rvf {} ; -prune" in
  let commands :=
    [ str_replace base (lit "DIR") (lit "__pycache__");
      str_replace base (lit "DIR") (lit ".pytest_cache");
      str_replace base (lit "DIR") (lit ".ipynb_checkpoints") ] in
  labels <- label_and_run commands labels ;;
  let base := lit "find " ++ Path_str home ++ lit " -name FILE -type f -delete" in
  let commands :=
    [ str_replace base (lit "FILE") (lit "Icon? -size 0");
      str_replace base (lit "FILE") (lit "desktop.ini") ] in
  _ <- label_and_run commands labels ;;
  ret tt.

End Callers.

Definition demo_path_text : PathText demo_platform :=
  {| Path_str := fun p : @Path demo_platform => p |}.

(** ** Vocabulary for the steps of a script *)

Section StepVocabulary.

Context {platform : Platform}.

(** The glyph for a finished process. *)
Definition verdict_of (e : Environment) (r : CompletedProcess) : str :=
  if negb (returncode r =? 0)%Z then FAIL e else PASS e.

(** The line of one step: the label padded with dots, then the glyph. *)
Definition step_line (e : Environment) (width : nat)
    (step : str * (list str * CompletedProcess)) : str :=
  ljust_dots (fst step) width ++ verdict_of e (snd (snd step)) ++ [NL].

End StepVocabulary.

(** ** A second small platform

    Every program is found on this host, which counts the processes it has
    run.  It refuses deletions: a command with an argument [-delete] exits
    with 1, any other with 0. *)

Definition careful_run (argv : list str) (capture : bool)
    (std_in std_out : option unit) (h : nat)
    : outcome CompletedProcess * nat :=
  (Returned
     {| args := argv;
        returncode := if existsb (str_eqb (lit "-delete")) argv then 1 else 0;
        stdout := if capture then Some [] else None;
        stderr := if capture then Some [] else None |},
   S h).

Definition careful_platform : Platform :=
  {| Host := nat;
     TextIO := unit;
     Path := str;
     Path_home := lit "/home/user";
     Path_file_resolve_parents_2 := lit "/home/user/ubuntu";
     Path_truediv := fun p name => p ++ lit "/" ++ name;
     subprocess_run := careful_run;
     repr_list := demo_repr |}.

Definition careful_path_text : PathText careful_platform :=
  {| Path_str := fun p : @Path careful_platform => p |}.

Definition careful_session : @Session careful_platform :=
  {| env := @Environment_init careful_platform;
     host := O;
     spawned := [];
     sys_stdout := [] |}.

(** * Properties *)

Unset Implicit Arguments.

(** ** Strings and lists *)

Lemma str_eqb_eq (a b : str) : str_eqb a b = true <-> a = b.
Proof.
  revert b; induction a as [|x a IH]; intros [|y b]; simpl;
    try (split; (discriminate || reflexivity)).
  rewrite andb_true_iff, N.eqb_eq, IH.
  split; [intros [-> ->]; reflexivity | intros H; inversion H; auto].
Qed.

Lemma str_eqb_refl (a : str) : str_eqb a a = true.
Proof. apply str_eqb_eq; reflexivity. Qed.

Lemma str_eqb_neq (a b : str) : a <> b -> str_eqb a b = false.
Proof.
  intros H; destruct (str_eqb a b) eqn:E; [|reflexivity].
  apply str_eqb_eq in E; contradiction.
Qed.

Lemma truthy_false (s : str) : truthy s = false <-> s = [].
Proof. destruct s; simpl; split; congruence. Qed.

Lemma truthy_true (s : str) : truthy s = true <-> s <> [].
Proof. destruct s; simpl; split; congruence. Qed.

Lemma stripped_tokens_filter (tokens : list str) :
  stripped_tokens tokens = filter truthy (map str_strip tokens).
Proof.
  induction tokens as [|t ts IH]; simpl; [reflexivity|].
  destruct (truthy (str_strip t)); rewrite IH; reflexivity.
Qed.

Lemma filter_map_length {A B : Type} (f : A -> B) (p : B -> bool)
    (l : list A) :
  length (filter p (map f l)) = length (filter (fun a => p (f a)) l).
Proof.
  induction l as [|a l IH]; simpl; [reflexivity|].
  destruct (p (f a)); simpl; rewrite IH; reflexivity.
Qed.

Lemma max_len_from_length (best : str) (l : list str) :
  length (max_len_from best l)
  = Nat.max (length best) (list_max (map (@length char) l)).
Proof.
  revert best; induction l as [|x l IH]; intros best; simpl.
  - lia.
  - destruct (Nat.ltb_spec (length best) (length x)); rewrite IH; lia.
Qed.

Lemma max_len_from_In (best : str) (l : list str) :
  In (max_len_from best l) (best :: l).
Proof.
  revert best; induction l as [|x l IH]; intros best; simpl.
  - auto.
  - destruct (length best <? length x).
    + right; apply IH.
    + destruct (IH best) as [H|H]; auto.
Qed.

Lemma list_max_filter_truthy (l : list str) :
  list_max (map (@length char) (filter truthy l))
  = list_max (map (@length char) l).
Proof.
  induction l as [|x l IH]; simpl; [reflexivity|].
  destruct x as [|c x]; simpl; rewrite IH; reflexivity.
Qed.

Lemma filter_truthy_nil_iff (l : list str) :
  filter truthy l = [] <-> (forall x, In x l -> x = []).
Proof.
  induction l as [|x l IH]; simpl.
  - split; [intros _ y [] | reflexivity].
  - destruct x as [|c x]; simpl.
    + rewrite IH; split.
      * intros H y [<-|Hy]; auto.
      * intros H y Hy; apply H; auto.
    + split; [discriminate|].
      intros H; specialize (H (c :: x) (or_introl eq_refl)); discriminate.
Qed.

(** [str.split] cuts at every separator and nowhere else. *)
Lemma str_split_join (sep : char) (s : str) :
  join [sep] (str_split sep s) = s.
Proof.
  induction s as [|c s IH]; [reflexivity|]; cbn [str_split].
  destruct (N.eqb_spec c sep) as [->|Hc].
  - destruct (str_split sep s) as [|tok toks] eqn:E;
      [destruct s; simpl in E; try destruct (N.eqb _ _);
       try destruct (str_split _ _); discriminate|].
    change (join [sep] ([] :: tok :: toks))
      with ([] ++ [sep] ++ join [sep] (tok :: toks)).
    rewrite IH; reflexivity.
  - destruct (str_split sep s) as [|tok toks] eqn:E.
    + simpl in IH; subst s; reflexivity.
    + destruct toks as [|tok' toks]; simpl in *; rewrite <- IH; reflexivity.
Qed.

Lemma str_split_lines (sep : char) (s : str) :
  Forall (fun line => ~ In sep line) (str_split sep s).
Proof.
  induction s as [|c s IH]; cbn [str_split].
  - constructor; [intros [] | constructor].
  - destruct (N.eqb_spec c sep) as [->|Hc].
    + constructor; [intros [] | exact IH].
    + destruct (str_split sep s) as [|tok toks].
      * constructor; [intros [H|[]]; congruence | constructor].
      * inversion IH as [|? ? Htok Htoks]; subst.
        constructor; [intros [H|H]; [congruence | contradiction] | exact Htoks].
Qed.

(** ** [Labels]: construction *)

Lemma Labels_init_labels (s : str) (q : Labels) :
  Labels_init s = Returned q ->
  labels q = filter truthy (map str_strip (str_split NL s))
  /\ pad q = list_max (map (@length char) (labels q)) + 3.
Proof.
  unfold Labels_init, max_key_len.
  rewrite stripped_tokens_filter.
  destruct (filter truthy (map str_strip (str_split NL s))) as [|x l] eqn:E;
    [discriminate|].
  intros H; injection H as <-; simpl; split; [reflexivity|].
  rewrite max_len_from_length; reflexivity.
Qed.

(** C6.  A text block with at least one non-blank line gives a queue with
    one label per non-blank line, each trimmed, and a padding width of the
    longest trimmed line plus 3; the scenario text gives
    [["Step One"; "Step Two"]] with padding 11. *)
Theorem Labels_init_size_and_pad :
  (forall s : str,
      (exists line, In line (str_split NL s) /\ str_strip line <> []) ->
      exists q,
        Labels_init s = Returned q
        /\ labels q = filter truthy (map str_strip (str_split NL s))
        /\ length (labels q)
           = length (filter (fun line => truthy (str_strip line))
                       (str_split NL s))
        /\ pad q
           = list_max (map (fun line => length (str_strip line))
                         (str_split NL s)) + 3)
  /\ Labels_init scenario_text
     = Returned {| labels := [lit "Step One"; lit "Step Two"]; pad := 11 |}.
Proof.
  split; [|reflexivity].
  intros s (line & Hin & Hne).
  destruct (Labels_init s) as [q|x] eqn:E.
  - exists q; destruct (Labels_init_labels s q E) as [Hl Hp].
    split; [reflexivity|]; split; [exact Hl|]; split.
    + rewrite Hl; apply filter_map_length.
    + rewrite Hp, Hl, list_max_filter_truthy, map_map; reflexivity.
  - exfalso; unfold Labels_init, max_key_len in E.
    rewrite stripped_tokens_filter in E.
    destruct (filter truthy (map str_strip (str_split NL s))) eqn:F;
      [|discriminate].
    apply Hne, (proj1 (filter_truthy_nil_iff _) F).
    apply in_map; exact Hin.
Qed.

Lemma Labels_init_size_and_pad_witness :
  (exists line, In line (str_split NL scenario_text) /\ str_strip line <> [])
  /\ exists q,
       Labels_init scenario_text = Returned q
       /\ labels q = filter truthy (map str_strip (str_split NL scenario_text))
       /\ length (labels q)
          = length (filter (fun line => truthy (str_strip line))
                      (str_split NL scenario_text))
       /\ pad q
          = list_max (map (fun line => length (str_strip line))
                        (str_split NL scenario_text)) + 3.
Proof.
  assert (H : exists line,
             In line (str_split NL scenario_text) /\ str_strip line <> []).
  { exists (lit "  Step One "); split; [left; reflexivity | discriminate]. }
  split; [exact H | exact (proj1 Labels_init_size_and_pad scenario_text H)].
Defined.

(** C8.  A text block without a non-blank line has no queue: the
    construction fails, with the [ValueError] that [max] raises on the
    empty label list. *)
Theorem Labels_init_blank_fails (s : str) :
  (forall line, In line (str_split NL s) -> str_strip line = []) ->
  Labels_init s = Raised (ValueError (lit "max() arg is an empty sequence")).
Proof.
  intros H; unfold Labels_init.
  rewrite stripped_tokens_filter.
  replace (filter truthy (map str_strip (str_split NL s))) with (@nil str);
    [reflexivity|].
  symmetry; apply filter_truthy_nil_iff.
  intros x Hx; apply in_map_iff in Hx; destruct Hx as (line & <- & Hin); auto.
Qed.

Lemma Labels_init_blank_fails_witness :
  (forall line, In line (str_split NL blank_text) -> str_strip line = [])
  /\ Labels_init blank_text
     = Raised (ValueError (lit "max() arg is an empty sequence"))
  /\ Labels_init []
     = Raised (ValueError (lit "max() arg is an empty sequence")).
Proof.
  assert (H : forall line,
             In line (str_split NL blank_text) -> str_strip line = []).
  { intros line [<-|[<-|[]]]; reflexivity. }
  split; [exact H|]; split; [exact (Labels_init_blank_fails blank_text H)|].
  apply (Labels_init_blank_fails []); intros line [<-|[]]; reflexivity.
Defined.

(** ** [Labels]: consuming the queue *)

Lemma Labels_next_cons (x : str) (l : list str) (w : nat) (out : str) :
  Labels_next {| self := {| labels := x :: l; pad := w |}; console := out |}
  = (Returned tt,
     {| self := {| labels := l; pad := w |};
        console := out ++ ljust_dots x w |}).
Proof. reflexivity. Qed.

Lemma Labels_next_nil (w : nat) (out : str) :
  Labels_next {| self := {| labels := []; pad := w |}; console := out |}
  = (Raised ExhaustedListError,
     {| self := {| labels := []; pad := w |}; console := out |}).
Proof. reflexivity. Qed.

Lemma repeat_next_prefix (k : nat) :
  forall (l : list str) (w : nat) (out : str),
    k <= length l ->
    repeat_next k {| self := {| labels := l; pad := w |}; console := out |}
    = (Returned tt,
       {| self := {| labels := skipn k l; pad := w |};
          console :=
            out ++ concat (map (fun x => ljust_dots x w) (firstn k l)) |}).
Proof.
  induction k as [|k IH]; intros l w out Hk.
  - simpl; rewrite app_nil_r; reflexivity.
  - destruct l as [|x l]; [simpl in Hk; lia|].
    change (repeat_next (S k)) with (Labels_next ;; repeat_next k).
    unfold bind; rewrite Labels_next_cons, IH by (simpl in Hk; lia).
    simpl; rewrite app_assoc; reflexivity.
Qed.

Lemma repeat_next_snoc (m : nat) (st : LabelsIO) :
  repeat_next (S m) st
  = match repeat_next m st with
    | (Returned _, st') => Labels_next st'
    | (Raised e, st') => (Raised e, st')
    end.
Proof.
  revert st; induction m as [|m IHm]; intros st.
  - simpl; unfold bind, ret; destruct (Labels_next st) as [[[]|e] st'];
      reflexivity.
  - change (repeat_next (S (S m))) with (Labels_next ;; repeat_next (S m)).
    change (repeat_next (S m)) with (Labels_next ;; repeat_next m) at 2.
    unfold bind; destruct (Labels_next st) as [[[]|e] st'];
      [apply IHm | reflexivity].
Qed.

(** C7.  On a queue of [n] labels, the first [k <= n] calls of [next]
    print the first [k] labels in order, each dot-padded to the queue's
    width, and leave the others; after [n] calls the queue is empty, and
    the call after those raises [ExhaustedListError] and changes nothing. *)
Theorem Labels_next_drains_in_order (q : Labels) (out : str) :
  let n := length (labels q) in
  let printed k :=
    concat (map (fun x => ljust_dots x (pad q)) (firstn k (labels q))) in
  let drained :=
    {| self := {| labels := []; pad := pad q |};
       console := out ++ printed n |} in
  (forall k, k <= n ->
     repeat_next k {| self := q; console := out |}
     = (Returned tt,
        {| self := {| labels := skipn k (labels q); pad := pad q |};
           console := out ++ printed k |}))
  /\ repeat_next n {| self := q; console := out |} = (Returned tt, drained)
  /\ Labels_next drained = (Raised ExhaustedListError, drained)
  /\ repeat_next (S n) {| self := q; console := out |}
     = (Raised ExhaustedListError, drained).
Proof.
  destruct q as [l w]; cbv zeta; cbn [labels pad].
  assert (Hn : repeat_next (length l)
                 {| self := {| labels := l; pad := w |}; console := out |}
               = (Returned tt,
                  {| self := {| labels := []; pad := w |};
                     console :=
                       out ++ concat (map (fun x => ljust_dots x w)
                                        (firstn (length l) l)) |})).
  { rewrite repeat_next_prefix by lia; rewrite skipn_all; reflexivity. }
  split; [intros k Hk; apply repeat_next_prefix; exact Hk|].
  split; [exact Hn|]; split; [apply Labels_next_nil|].
  rewrite repeat_next_snoc, Hn; apply Labels_next_nil.
Qed.

Lemma Labels_next_drains_in_order_witness :
  2 <= 2
  /\ repeat_next 2 {| self := {| labels := [lit "Step One"; lit "Step Two"];
                                 pad := 11 |};
                      console := [] |}
     = (Returned tt,
        {| self := {| labels := []; pad := 11 |};
           console := lit "Step One...Step Two..." |}).
Proof.
  split; [lia|].
  exact (proj1 (Labels_next_drains_in_order
                  {| labels := [lit "Step One"; lit "Step Two"]; pad := 11 |}
                  []) 2 (le_n 2)).
Defined.

(** [dump] removes the first [n] labels when [0 < n <= len], and nothing
    otherwise. *)
Lemma Labels_dump_eq (q : Labels) (out : str) (n : Z) :
  Labels_dump n {| self := q; console := out |}
  = (Returned tt,
     {| self := {| labels := if ((0 <? n) && (n <=? Z.of_nat (length (labels q))))%Z
                             then skipn (Z.to_nat n) (labels q)
                             else labels q;
                   pad := pad q |};
        console := out |}).
Proof.
  unfold Labels_dump, bind, gets, set_labels, modify, ret; cbn [self console].
  destruct q as [l w]; cbn [labels pad].
  destruct (Z.leb_spec n 0); destruct (Z.ltb_spec 0 n); try lia;
    destruct (Z.ltb_spec (Z.of_nat (length l)) n);
    destruct (Z.leb_spec n (Z.of_nat (length l))); try lia; reflexivity.
Qed.

(** ** [Labels]: popping by index *)

Lemma list_pop_ssize {A : Type} (l : list A) (index : Z) :
  (PY_SSIZE_T_MIN <= index <= PY_SSIZE_T_MAX)%Z ->
  list_pop l index = list_pop_impl l index.
Proof.
  intros Hi; unfold list_pop.
  destruct (Z.ltb_spec index PY_SSIZE_T_MIN); [lia|].
  destruct (Z.ltb_spec PY_SSIZE_T_MAX index); [lia | reflexivity].
Qed.

Lemma list_pop_overflow {A : Type} (l : list A) (index : Z) :
  (index < PY_SSIZE_T_MIN \/ PY_SSIZE_T_MAX < index)%Z ->
  list_pop l index
  = Raised (OverflowError
              (lit "Python int too large to convert to C ssize_t")).
Proof.
  intros Hi; unfold list_pop.
  destruct (Z.ltb_spec index PY_SSIZE_T_MIN); [reflexivity|].
  destruct (Z.ltb_spec PY_SSIZE_T_MAX index); [reflexivity | lia].
Qed.

Lemma list_pop_negative_in_range {A : Type} (l : list A) (d : A) (index : Z) :
  l <> [] ->
  (PY_SSIZE_T_MIN <= index)%Z ->
  (- Z.of_nat (length l) <= index < 0)%Z ->
  list_pop l index
  = Returned (nth (Z.to_nat (Z.of_nat (length l) + index)) l d,
              remove_nth (Z.to_nat (Z.of_nat (length l) + index)) l).
Proof.
  intros Hl Hmin Hi.
  rewrite list_pop_ssize by (unfold PY_SSIZE_T_MAX in *; lia).
  unfold list_pop_impl.
  destruct l as [|x l]; [contradiction|].
  set (n := Z.of_nat (length (x :: l))) in *.
  destruct (Z.ltb_spec index 0); [|lia].
  destruct (Z.ltb_spec (index + n) 0); [lia|].
  destruct (Z.leb_spec n (index + n)); [lia|].
  cbn [orb]; rewrite (Z.add_comm index n).
  f_equal; f_equal; apply nth_indep.
  apply Nat2Z.inj_lt; fold n; lia.
Qed.

Lemma list_pop_negative_out_of_range {A : Type} (l : list A) (index : Z) :
  l <> [] ->
  (PY_SSIZE_T_MIN <= index)%Z ->
  (index < - Z.of_nat (length l))%Z ->
  list_pop l index = Raised (IndexError (lit "pop index out of range")).
Proof.
  intros Hl Hmin Hi.
  rewrite list_pop_ssize
    by (pose proof (Nat2Z.is_nonneg (length l));
        unfold PY_SSIZE_T_MAX in *; lia).
  unfold list_pop_impl.
  destruct l as [|x l]; [contradiction|].
  set (n := Z.of_nat (length (x :: l))) in *.
  assert (0 <= n)%Z by apply Nat2Z.is_nonneg.
  destruct (Z.ltb_spec index 0); [|lia].
  destruct (Z.ltb_spec (index + n) 0); [reflexivity|lia].
Qed.

Lemma nth_last {A : Type} (l : list A) (d : A) :
  nth (length l - 1) l d = last l d.
Proof.
  induction l as [|x l IH]; [reflexivity|].
  destruct l as [|y l]; [reflexivity|].
  simpl in *; rewrite Nat.sub_0_r in IH; exact IH.
Qed.

Lemma remove_nth_last {A : Type} (l : list A) :
  remove_nth (length l - 1) l = removelast l.
Proof.
  induction l as [|x l IH]; [reflexivity|].
  destruct l as [|y l]; [reflexivity|].
  simpl in *; rewrite Nat.sub_0_r in IH; rewrite IH; reflexivity.
Qed.

Lemma Labels_pop_item_in_range (q : Labels) (out : str) (index : Z)
    (x : str) (rest : list str) :
  labels q <> [] ->
  list_pop (labels q) index = Returned (x, rest) ->
  Labels_pop_item index {| self := q; console := out |}
  = (Returned x,
     {| self := {| labels := rest; pad := pad q |}; console := out |}).
Proof.
  intros Hl Hp; unfold Labels_pop_item, bind, gets; cbn [self labels].
  destruct (labels q) as [|y l] eqn:E; [contradiction|].
  cbn [length Nat.eqb]; rewrite Hp; reflexivity.
Qed.

Lemma Labels_pop_item_out_of_range (q : Labels) (out : str) (index : Z)
    (msg : str) :
  labels q <> [] ->
  list_pop (labels q) index = Raised (IndexError msg) ->
  Labels_pop_item index {| self := q; console := out |}
  = (Raised (SystemExit 1),
     {| self := q;
        console :=
          (out ++ msg ++ lit ". Attempting to pop index "
               ++ str_of_int index ++ lit "." ++ [NL])
            ++ lit "Terminating program." ++ [NL] |}).
Proof.
  intros Hl Hp; unfold Labels_pop_item, bind, gets; cbn [self labels].
  destruct (labels q) as [|y l] eqn:E; [contradiction|].
  cbn [length Nat.eqb]; rewrite Hp; reflexivity.
Qed.

Lemma Labels_pop_last_eq (q : Labels) (out : str) :
  labels q <> [] ->
  Labels_pop_last {| self := q; console := out |}
  = (Returned (last (labels q) []),
     {| self := {| labels := removelast (labels q); pad := pad q |};
        console := out |}).
Proof.
  intros Hl; unfold Labels_pop_last, bind, gets, call; cbn [self labels].
  destruct (labels q) as [|y l] eqn:E; [contradiction|].
  cbn [length Nat.eqb].
  rewrite (list_pop_negative_in_range (y :: l) [] (-1)).
  - replace (Z.to_nat (Z.of_nat (length (y :: l)) + -1))
      with (length (y :: l) - 1) by (simpl length; lia).
    rewrite nth_last, remove_nth_last; reflexivity.
  - discriminate.
  - discriminate.
  - simpl length; lia.
Qed.

Lemma Labels_pop_item_overflow (q : Labels) (out : str) (index : Z) :
  labels q <> [] ->
  (index < PY_SSIZE_T_MIN \/ PY_SSIZE_T_MAX < index)%Z ->
  Labels_pop_item index {| self := q; console := out |}
  = (Raised (OverflowError
               (lit "Python int too large to convert to C ssize_t")),
     {| self := q; console := out |}).
Proof.
  intros Hl Hi; unfold Labels_pop_item, bind, gets; cbn [self labels].
  destruct (labels q) as [|y l] eqn:E; [contradiction|].
  cbn [length Nat.eqb]; rewrite (list_pop_overflow (y :: l) index Hi).
  reflexivity.
Qed.

(** C10.  On a non-empty queue, [pop_item] with a negative index counts
    from the end: an index between [-len] and [-1] removes and returns the
    label at position [len + index], and [pop_item(-1)] does what
    [pop_last] does and returns the last label.  The process is terminated
    ([SystemExit(1)], after the report) only for a negative index below
    [-len]: exactly for those that [list.pop] accepts as an index, from
    [-2^63] on; below that, the [OverflowError] of [list.pop] passes
    through [pop_item], nothing is printed and the queue is as it was. *)
Theorem Labels_pop_item_negative_index (q : Labels) (out : str) (index : Z) :
  labels q <> [] ->
  (Z.of_nat (length (labels q)) <= PY_SSIZE_T_MAX)%Z ->
  (index < 0)%Z ->
  let n := Z.of_nat (length (labels q)) in
  let st := {| self := q; console := out |} in
  ((- n <= index)%Z ->
     Labels_pop_item index st
     = (Returned (nth (Z.to_nat (n + index)) (labels q) []),
        {| self := {| labels := remove_nth (Z.to_nat (n + index)) (labels q);
                      pad := pad q |};
           console := out |}))
  /\ (fst (Labels_pop_item index st) = Raised (SystemExit 1)
      <-> (PY_SSIZE_T_MIN <= index < - n)%Z)
  /\ ((index < PY_SSIZE_T_MIN)%Z ->
      Labels_pop_item index st
      = (Raised (OverflowError
                   (lit "Python int too large to convert to C ssize_t")),
         st))
  /\ Labels_pop_item (-1) st = Labels_pop_last st
  /\ Labels_pop_last st
     = (Returned (last (labels q) []),
        {| self := {| labels := removelast (labels q); pad := pad q |};
           console := out |}).
Proof.
  intros Hl Hmax Hneg n st.
  assert (Hin : (- n <= index)%Z ->
                Labels_pop_item index st
                = (Returned (nth (Z.to_nat (n + index)) (labels q) []),
                   {| self := {| labels :=
                                   remove_nth (Z.to_nat (n + index)) (labels q);
                                 pad := pad q |};
                      console := out |})).
  { intros Hge; apply Labels_pop_item_in_range; [exact Hl|].
    apply list_pop_negative_in_range;
      [exact Hl | unfold PY_SSIZE_T_MIN; fold n; lia | fold n; lia]. }
  assert (Hover : (index < PY_SSIZE_T_MIN)%Z ->
                  Labels_pop_item index st
                  = (Raised (OverflowError
                               (lit "Python int too large to convert to C ssize_t")),
                     st))
    by (intros Hlt; apply Labels_pop_item_overflow; [exact Hl | left; exact Hlt]).
  assert (Hlast : Labels_pop_last st
                  = (Returned (last (labels q) []),
                     {| self := {| labels := removelast (labels q);
                                   pad := pad q |};
                        console := out |}))
    by (apply Labels_pop_last_eq; exact Hl).
  split; [exact Hin|]; split; [|split; [exact Hover|split; [|exact Hlast]]].
  - split.
    + intros Hexit.
      destruct (Z.lt_ge_cases index PY_SSIZE_T_MIN) as [Hlt|Hmin];
        [rewrite (Hover Hlt) in Hexit; discriminate|].
      destruct (Z.lt_ge_cases index (- n)) as [|Hge]; [lia|].
      rewrite (Hin Hge) in Hexit; discriminate.
    + intros [Hmin Hlt]; unfold st.
      rewrite (Labels_pop_item_out_of_range q out index
                 (lit "pop index out of range") Hl); [reflexivity|].
      apply list_pop_negative_out_of_range;
        [exact Hl | exact Hmin | fold n; lia].
  - rewrite Hlast; unfold st.
    rewrite (Labels_pop_item_in_range q out (-1)
               (last (labels q) []) (removelast (labels q)) Hl);
      [reflexivity|].
    rewrite (list_pop_negative_in_range (labels q) [] (-1) Hl).
    + replace (Z.to_nat (Z.of_nat (length (labels q)) + -1))
        with (length (labels q) - 1) by lia.
      rewrite nth_last, remove_nth_last; reflexivity.
    + discriminate.
    + destruct (labels q); [contradiction | simpl length; lia].
Qed.

Lemma Labels_pop_item_negative_index_witness :
  (3 <= PY_SSIZE_T_MAX)%Z
  /\ (-2 < 0)%Z
  /\ (- 3 <= -2)%Z
  /\ Labels_pop_item (-2)
       {| self := {| labels := [lit "one"; lit "two"; lit "three"];
                     pad := 8 |};
          console := [] |}
     = (Returned (lit "two"),
        {| self := {| labels := [lit "one"; lit "three"];
                      pad := 8 |};
           console := [] |}).
Proof.
  split; [discriminate|]; split; [reflexivity|]; split; [discriminate|].
  refine (proj1 (Labels_pop_item_negative_index
                   {| labels := [lit "one"; lit "two"; lit "three"];
                      pad := 8 |} [] (-2) _ _ _) _).
  - discriminate.
  - discriminate.
  - reflexivity.
  - discriminate.
Defined.

(** ** The command runner: one command *)

Section RunnerFacts.

Context {platform : Platform}.

Lemma run_one_command_live_eq (cmd : str) (capture : bool)
    (std_in std_out : option TextIO) (s : Session)
    (argv : list str) (r : CompletedProcess) (h' : Host) :
  DEBUG (env s) = false ->
  shlex_split cmd = Returned argv ->
  subprocess_run argv capture std_in std_out (host s) = (Returned r, h') ->
  run_one_command cmd capture std_in std_out s
  = (Returned (if negb (returncode r =? 0)%Z then FAIL (env s)
               else PASS (env s)),
     {| env := set_RESULT (Some r) (env s);
        host := h';
        spawned := spawned s ++ [(argv, Returned r)];
        sys_stdout := sys_stdout s |}).
Proof.
  intros Hd Hs Hr.
  unfold run_one_command, bind, gets, call, sp_run, assign_RESULT, modify, ret.
  rewrite Hd, Hs, Hr; cbn [env host spawned sys_stdout].
  destruct (negb (returncode r =? 0)%Z); reflexivity.
Qed.

Lemma run_one_command_debug_eq (cmd : str) (capture : bool)
    (std_in std_out : option TextIO) (s : Session) :
  DEBUG (env s) = true ->
  run_one_command cmd capture std_in std_out s
  = match shlex_split cmd with
    | Returned argv =>
        (Returned (PASS (env s)),
         {| env := env s; host := host s; spawned := spawned s;
            sys_stdout :=
              sys_stdout s ++ ([NL] ++ lit "Running: " ++ repr_list argv)
                ++ [NL] |})
    | Raised x => (Raised x, s)
    end.
Proof.
  intros Hd.
  unfold run_one_command, bind, gets, call, print, modify, ret.
  rewrite Hd; destruct (shlex_split cmd); reflexivity.
Qed.

(** C1.  In live mode, when the command line splits into an argument
    vector and [subprocess.run] comes back with the result of the child
    process, [run_one_command] returns (it does not raise), the value is
    [PASS] exactly when the exit code is 0 and [FAIL] exactly when it is
    not, and [RESULT] holds the whole process result whatever it held
    before. *)
Theorem run_one_command_live_verdict (cmd : str) (capture : bool)
    (std_in std_out : option TextIO) (s : Session)
    (argv : list str) (r : CompletedProcess) (h' : Host) :
  DEBUG (env s) = false ->
  PASS (env s) <> FAIL (env s) ->
  shlex_split cmd = Returned argv ->
  subprocess_run argv capture std_in std_out (host s) = (Returned r, h') ->
  exists verdict s',
    run_one_command cmd capture std_in std_out s = (Returned verdict, s')
    /\ (verdict = PASS (env s) <-> returncode r = 0%Z)
    /\ (verdict = FAIL (env s) <-> returncode r <> 0%Z)
    /\ RESULT (env s') = Some r
    /\ spawned s' = spawned s ++ [(argv, Returned r)]
    /\ host s' = h'.
Proof.
  intros Hd Hpf Hs Hr.
  rewrite (run_one_command_live_eq cmd capture std_in std_out s argv r h'
             Hd Hs Hr).
  eexists; eexists; split; [reflexivity|].
  cbn [env host spawned RESULT set_RESULT].
  destruct (Z.eqb_spec (returncode r) 0) as [E|E]; cbn [negb];
    repeat split; auto; congruence.
Qed.

(** Tokenizing fails only with one of the two [ValueError]s of [shlex]. *)
Lemma read_tokens_raises (input : str) :
  forall state token quoted escapedstate x,
    read_tokens input state token quoted escapedstate = Raised x ->
    x = ValueError (lit "No closing quotation")
    \/ x = ValueError (lit "No escaped character").
Proof.
  assert (Hemit : forall quoted token later x,
             emit quoted token later = Raised x -> later = Raised x).
  { intros quoted token later x; unfold emit.
    destruct (negb quoted && negb (truthy token)); [discriminate|].
    destruct later; congruence. }
  induction input as [|c rest IH]; intros state token quoted escapedstate x.
  - cbn [read_tokens].
    repeat match goal with
           | |- context [if ?b then _ else _] => destruct b
           end;
      intros H; try (apply Hemit in H; discriminate);
      injection H as <-; auto.
  - cbn [read_tokens].
    repeat match goal with
           | |- context [if ?b then _ else _] => destruct b
           end;
      intros H; try apply Hemit in H; eapply IH; exact H.
Qed.

(** C3, as the code has it.  In dry-run mode [run_one_command] never calls
    [subprocess.run] and leaves the host and the [Environment] as they
    were.  When the command line can be split it prints the trace and
    returns [PASS]; when it cannot (an unclosed quotation, a trailing
    escape character) the [ValueError] of [shlex.split] is raised and
    nothing is printed. *)
Theorem run_one_command_dry_run (cmd : str) (capture : bool)
    (std_in std_out : option TextIO) (s : Session) :
  DEBUG (env s) = true ->
  exists result s',
    run_one_command cmd capture std_in std_out s = (result, s')
    /\ spawned s' = spawned s
    /\ host s' = host s
    /\ env s' = env s
    /\ ((exists argv,
            shlex_split cmd = Returned argv
            /\ result = Returned (PASS (env s))
            /\ sys_stdout s'
               = sys_stdout s ++ ([NL] ++ lit "Running: " ++ repr_list argv)
                   ++ [NL])
        \/ (exists msg,
               shlex_split cmd = Raised (ValueError msg)
               /\ result = Raised (ValueError msg)
               /\ s' = s)).
Proof.
  intros Hd.
  rewrite (run_one_command_debug_eq cmd capture std_in std_out s Hd).
  destruct (shlex_split cmd) as [argv|x] eqn:E.
  - eexists; eexists; split; [reflexivity|].
    cbn [env host spawned sys_stdout]; repeat split.
    left; exists argv; auto.
  - exists (Raised x), s; repeat split.
    right; destruct (read_tokens_raises _ _ _ _ _ _ E) as [-> | ->];
      eexists; repeat split.
Qed.

(** ** The command runner: one command per value *)

Lemma run_many_loop_live (cmd marker : str) (targets : list str) :
  forall (s : Session) (result : option str),
    targets <> [] ->
    DEBUG (env s) = false ->
    PASS (env s) <> FAIL (env s) ->
    (forall t, In t targets ->
       exists argv,
         shlex_split (str_replace cmd marker t) = Returned argv
         /\ forall h, exists r h',
              subprocess_run argv true None None h = (Returned r, h')) ->
    exists verdict s' pre run,
      run_many_loop cmd marker targets result s = (Returned verdict, s')
      /\ spawned s'
         = spawned s ++ map (fun p => (fst p, Returned (snd p))) (pre ++ [run])
      /\ Forall2
           (fun t p =>
              shlex_split (str_replace cmd marker t) = Returned (fst p))
           (firstn (S (length pre)) targets) (pre ++ [run])
      /\ Forall (fun p => returncode (snd p) = 0%Z) pre
      /\ ((returncode (snd run) <> 0%Z /\ verdict = FAIL (env s))
          \/ (returncode (snd run) = 0%Z /\ verdict = PASS (env s)
              /\ S (length pre) = length targets))
      /\ RESULT (env s') = Some (snd run)
      /\ PASS (env s') = PASS (env s) /\ FAIL (env s') = FAIL (env s).
Proof.
  induction targets as [|t ts IH]; intros s result Hne Hd Hpf Hrun;
    [contradiction|].
  destruct (Hrun t (or_introl eq_refl)) as (argv & Hs & Hex).
  destruct (Hex (host s)) as (r & h' & Hr).
  cbn [run_many_loop]; unfold bind at 1.
  rewrite (run_one_command_live_eq _ true None None s argv r h' Hd Hs Hr).
  set (s1 := {| env := set_RESULT (Some r) (env s); host := h';
                spawned := spawned s ++ [(argv, Returned r)];
                sys_stdout := sys_stdout s |}).
  unfold bind, gets; cbn [env s1 set_RESULT FAIL].
  destruct (Z.eqb_spec (returncode r) 0) as [E|E]; cbn [negb].
  - rewrite (str_eqb_neq _ _ Hpf).
    destruct ts as [|t' ts'].
    + exists (PASS (env s)), s1, [], (argv, r); cbn.
      repeat split; auto.
    + destruct (IH s1 (Some (PASS (env s)))) as
        (verdict & s' & pre & run & Hloop & Hsp & Hf2 & Hall & Hv & Hres
         & Hp & Hf); try assumption.
      * discriminate.
      * intros u Hu; apply Hrun; right; exact Hu.
      * exists verdict, s', ((argv, r) :: pre), run.
        split; [exact Hloop|]; split.
        { rewrite Hsp; unfold s1; cbn [spawned].
          rewrite <- app_assoc; reflexivity. }
        split; [cbn [length firstn app]; constructor; [exact Hs | exact Hf2]|].
        split; [constructor; [exact E | exact Hall]|].
        split; [|split; [exact Hres | split; [exact Hp | exact Hf]]].
        destruct Hv as [[Hv1 Hv2] | (Hv1 & Hv2 & Hv3)]; [left | right];
          repeat split; auto.
        cbn [length] in *; lia.
  - rewrite str_eqb_refl.
    exists (FAIL (env s)), s1, [], (argv, r); cbn.
    repeat split; auto.
Qed.

(** The same loop in dry-run mode: every value is traced, none is run. *)
Lemma run_many_loop_dry_run (cmd marker : str) (targets : list str) :
  forall (s : Session) (result : option str),
    targets <> [] ->
    DEBUG (env s) = true ->
    PASS (env s) <> FAIL (env s) ->
    (forall t, In t targets ->
       exists argv, shlex_split (str_replace cmd marker t) = Returned argv) ->
    exists s',
      run_many_loop cmd marker targets result s = (Returned (PASS (env s)), s')
      /\ spawned s' = spawned s /\ host s' = host s /\ env s' = env s.
Proof.
  induction targets as [|t ts IH]; intros s result Hne Hd Hpf Hrun;
    [contradiction|].
  destruct (Hrun t (or_introl eq_refl)) as (argv & Hs).
  cbn [run_many_loop]; unfold bind at 1.
  rewrite (run_one_command_debug_eq _ true None None s Hd), Hs.
  unfold bind, gets; cbn [env].
  rewrite (str_eqb_neq _ _ Hpf).
  destruct ts as [|t' ts'].
  - eexists; split; [reflexivity|]; auto.
  - match goal with
    | |- context [run_many_loop _ _ _ (Some ?v) ?st] =>
        destruct (IH st (Some v)) as (s' & Hloop & Hsp & Hh & He)
    end; try assumption; try discriminate.
    + intros u Hu; apply Hrun; right; exact Hu.
    + exists s'; split; [exact Hloop|]; auto.
Qed.

(** C2.  In live mode, on a non-empty list of values whose command lines
    can all be run, [run_many_arguments] returns a verdict and has called
    [subprocess.run] for a non-empty initial stretch of the values, once
    each and in list order.  All of these calls but the last exited with
    0.  Either the last one did not, and the verdict is [FAIL]: no later
    value was run; or it did, the stretch is the whole list, and the
    verdict is [PASS]. *)
Theorem run_many_arguments_short_circuit (cmd marker : str)
    (targets : list str) (s : Session) :
  targets <> [] ->
  DEBUG (env s) = false ->
  PASS (env s) <> FAIL (env s) ->
  (forall t, In t targets ->
     exists argv,
       shlex_split (str_replace cmd marker t) = Returned argv
       /\ forall h, exists r h',
            subprocess_run argv true None None h = (Returned r, h')) ->
  exists verdict s' pre run,
    run_many_arguments cmd targets marker s = (Returned verdict, s')
    /\ spawned s'
       = spawned s ++ map (fun p => (fst p, Returned (snd p))) (pre ++ [run])
    /\ length (pre ++ [run]) <= length targets
    /\ Forall2
         (fun t p => shlex_split (str_replace cmd marker t) = Returned (fst p))
         (firstn (length (pre ++ [run])) targets) (pre ++ [run])
    /\ Forall (fun p => returncode (snd p) = 0%Z) pre
    /\ ((returncode (snd run) <> 0%Z /\ verdict = FAIL (env s))
        \/ (returncode (snd run) = 0%Z /\ verdict = PASS (env s)
            /\ length (pre ++ [run]) = length targets))
    /\ (verdict = PASS (env s) ->
        length (pre ++ [run]) = length targets
        /\ Forall (fun p => returncode (snd p) = 0%Z) (pre ++ [run])).
Proof.
  intros Hne Hd Hpf Hrun.
  destruct (run_many_loop_live cmd marker targets s None Hne Hd Hpf Hrun)
    as (verdict & s' & pre & run & Hloop & Hsp & Hf2 & Hall & Hv & _).
  assert (Hlen : length (pre ++ [run]) = S (length pre))
    by (rewrite length_app; simpl; lia).
  exists verdict, s', pre, run; rewrite Hlen.
  split; [exact Hloop|]; split; [exact Hsp|]; split.
  { pose proof (Forall2_length Hf2) as Hfl; rewrite Hlen in Hfl.
    rewrite length_firstn in Hfl; lia. }
  split; [exact Hf2|]; split; [exact Hall|]; split; [exact Hv|].
  intros ->; destruct Hv as [[_ Hv] | (Hrc & _ & Hl)];
    [exfalso; exact (Hpf Hv)|].
  split; [exact Hl|].
  apply Forall_app; split; [exact Hall | constructor; auto].
Qed.

(** C5, on the code: with an empty list of values the loop body never
    runs, [result] is read unbound and [UnboundLocalError] is raised:
    neither a verdict nor an error of the runner's own. *)
Theorem run_many_arguments_empty (cmd marker : str) (s : Session) :
  run_many_arguments cmd [] marker s
  = (Raised (UnboundLocalError (lit "result")), s).
Proof. reflexivity. Qed.

(** ** The minimum version check *)

Lemma min_python_version_none_iff (v : version_info) (e : Environment) :
  min_python_version v e = None
  <-> (MAJOR e <= major v /\ MINOR e <= minor v)%Z.
Proof.
  unfold min_python_version.
  destruct (Z.ltb_spec (major v) (MAJOR e));
    destruct (Z.ltb_spec (minor v) (MINOR e)); cbn [orb];
    split; try discriminate; try reflexivity; lia.
Qed.

Lemma min_python_version_message (v : version_info) (e : Environment)
    (msg : str) :
  min_python_version v e = Some msg ->
  msg = lit "Minimum required Python version is "
          ++ str_of_int (MAJOR e) ++ lit "." ++ str_of_int (MINOR e).
Proof.
  unfold min_python_version.
  destruct ((major v <? MAJOR e)%Z || (minor v <? MINOR e)%Z);
    congruence.
Qed.

(** With equal major numbers the check agrees with the version order. *)
Lemma min_python_version_same_major (v : version_info) (e : Environment) :
  major v = MAJOR e ->
  (min_python_version v e = None
   <-> version_at_least v (MAJOR e) (MINOR e)).
Proof.
  intros Hm; rewrite min_python_version_none_iff; unfold version_at_least.
  lia.
Qed.

(** The scenario: required 3.10 against 3.9, 3.10 and 3.11. *)
Lemma min_python_version_scenario :
  min_python_version {| major := 3; minor := 9 |} Environment_init
  = Some (lit "Minimum required Python version is 3.10")
  /\ min_python_version {| major := 3; minor := 10 |} Environment_init = None
  /\ min_python_version {| major := 3; minor := 11 |} Environment_init = None.
Proof. repeat split. Qed.

(** C9, on the code: the two numbers are compared one by one, so a host
    at 4.0, which is newer than the required 3.10, is turned away with the
    message. *)
Theorem min_python_version_newer_major :
  version_at_least {| major := 4; minor := 0 |}
    (MAJOR Environment_init) (MINOR Environment_init)
  /\ min_python_version {| major := 4; minor := 0 |} Environment_init
     = Some (lit "Minimum required Python version is 3.10").
Proof. split; [left; reflexivity | reflexivity]. Qed.

End RunnerFacts.

(** ** Substituting the marker *)

Lemma startswith_iff (p s : str) :
  startswith p s = true <-> exists after, s = p ++ after.
Proof.
  revert s; induction p as [|a p IH]; intros s; simpl.
  - split; [intros _; exists s; reflexivity | reflexivity].
  - destruct s as [|b s].
    + split; [discriminate | intros [after H]; discriminate].
    + rewrite andb_true_iff, N.eqb_eq, IH; split.
      * intros [-> [after ->]]; exists after; reflexivity.
      * intros [after H]; injection H as -> ->; split; [reflexivity|].
        exists after; reflexivity.
Qed.

Lemma startswith_occurs (old s : str) :
  startswith old s = true -> occurs old s.
Proof.
  intros H; apply startswith_iff in H; destruct H as [after ->].
  exists [], after; reflexivity.
Qed.

Lemma occurs_cons (old s : str) (c : char) :
  occurs old s -> occurs old (c :: s).
Proof.
  intros (before & after & ->); exists (c :: before), after; reflexivity.
Qed.

Lemma occurs_cons_inv (old s : str) (c : char) :
  occurs old (c :: s) -> startswith old (c :: s) = true \/ occurs old s.
Proof.
  intros (before & after & H); destruct before as [|b before].
  - left; apply startswith_iff; exists after; exact H.
  - right; injection H as _ ->; exists before, after; reflexivity.
Qed.

Lemma occurs_length (old s : str) : occurs old s -> length old <= length s.
Proof.
  intros (before & after & ->); rewrite !length_app; lia.
Qed.

Lemma removelast_length {A : Type} (l : list A) :
  l <> [] -> S (length (removelast l)) = length l.
Proof.
  intros H; destruct (exists_last H) as (l' & a & ->).
  rewrite removelast_last, length_app; simpl; lia.
Qed.

(** A prefix no longer than [x] of [x ++ y] is a prefix of [x]. *)
Lemma startswith_app_short (p x y : str) :
  startswith p (x ++ y) = true -> length p <= length x ->
  startswith p x = true.
Proof.
  revert x; induction p as [|a p IH]; intros x H Hl; [reflexivity|].
  destruct x as [|b x]; [simpl in Hl; lia|].
  simpl in *; apply andb_true_iff in H; destruct H as [-> H].
  apply IH; [exact H | lia].
Qed.

Lemma startswith_app_long (p x y : str) :
  startswith p x = true -> startswith p (x ++ y) = true.
Proof.
  intros H; apply startswith_iff in H; destruct H as [after ->].
  apply startswith_iff; exists (after ++ y); rewrite app_assoc; reflexivity.
Qed.

Lemma replace_from_skip (old new a : str) :
  forall b, replace_from old new (length a) (a ++ b)
            = replace_from old new 0 b.
Proof.
  induction a as [|c a IH]; intros b; simpl.
  - destruct b; reflexivity.
  - apply IH.
Qed.

Lemma replace_from_absent (old new : str) (p : str) :
  old <> [] -> ~ occurs old p -> replace_from old new 0 p = p.
Proof.
  intros Ho; induction p as [|c p IH]; intros Hn; [reflexivity|].
  cbn [replace_from].
  destruct (startswith old (c :: p)) eqn:E.
  - exfalso; apply Hn, startswith_occurs; exact E.
  - rewrite IH; [reflexivity|].
    intros H; apply Hn, occurs_cons; exact H.
Qed.

Lemma replace_from_piece (old new : str) (p rest : str) :
  old <> [] ->
  ~ occurs old (p ++ removelast old) ->
  replace_from old new 0 (p ++ old ++ rest)
  = p ++ new ++ replace_from old new 0 rest.
Proof.
  intros Ho; induction p as [|c p IH]; intros Hn.
  - destruct old as [|m ms] eqn:Eo; [contradiction|].
    cbn [app replace_from].
    replace (startswith (m :: ms) (m :: ms ++ rest)) with true
      by (symmetry; apply startswith_iff; exists rest; reflexivity).
    replace (length (m :: ms) - 1) with (length ms) by (simpl; lia).
    rewrite replace_from_skip; reflexivity.
  - cbn [app replace_from].
    destruct (startswith old (c :: p ++ old ++ rest)) eqn:E.
    + exfalso; apply Hn, startswith_occurs.
      rewrite (app_removelast_last 0%N Ho) in E at 2.
      rewrite <- app_assoc, app_assoc in E.
      apply (startswith_app_short old ((c :: p) ++ removelast old) _ E).
      rewrite length_app; pose proof (removelast_length old Ho).
      simpl; lia.
    + rewrite IH; [reflexivity|].
      intros H; apply Hn; simpl; apply occurs_cons; exact H.
Qed.

Lemma marker_free_pieces_nonempty (marker : str) (pieces : list str) :
  marker_free_pieces marker pieces -> pieces <> [].
Proof. destruct pieces; simpl; [tauto | discriminate]. Qed.

Lemma str_replace_join (marker value : str) (pieces : list str) :
  marker <> [] ->
  marker_free_pieces marker pieces ->
  str_replace (join marker pieces) marker value = join value pieces.
Proof.
  intros Hm Hp.
  assert (E : str_replace (join marker pieces) marker value
              = replace_from marker value 0 (join marker pieces))
    by (destruct marker; [contradiction | reflexivity]).
  rewrite E; clear E.
  induction pieces as [|p rest IH]; [destruct Hp|].
  destruct rest as [|p' rest].
  - simpl in *; apply replace_from_absent; assumption.
  - destruct Hp as [Hp1 Hp2].
    change (join marker (p :: p' :: rest))
      with (p ++ marker ++ join marker (p' :: rest)).
    change (join value (p :: p' :: rest))
      with (p ++ value ++ join value (p' :: rest)).
    rewrite replace_from_piece, IH; auto.
Qed.

(** Every template is cut into such pieces by a non-empty marker. *)
Lemma marker_free_pieces_exist (marker : str) :
  marker <> [] ->
  forall (n : nat) (cmd : str),
    length cmd <= n ->
    exists pieces,
      cmd = join marker pieces /\ marker_free_pieces marker pieces.
Proof.
  intros Hm.
  assert (Hshort : ~ occurs marker (removelast marker)).
  { intros H; apply occurs_length in H.
    pose proof (removelast_length marker Hm); lia. }
  induction n as [|n IH]; intros cmd Hn.
  - destruct cmd; [|simpl in Hn; lia].
    exists [[]]; split; [reflexivity|]; simpl.
    intros H; apply occurs_length in H; destruct marker;
      [contradiction | simpl in H; lia].
  - destruct cmd as [|c cmd].
    { exists [[]]; split; [reflexivity|]; simpl.
      intros H; apply occurs_length in H; destruct marker;
        [contradiction | simpl in H; lia]. }
    destruct (startswith marker (c :: cmd)) eqn:E.
    + apply startswith_iff in E; destruct E as [rest E].
      destruct (IH rest) as (pieces & Hj & Hp).
      { apply (f_equal (@length char)) in E; rewrite length_app in E.
        destruct marker; [contradiction | simpl in *; lia]. }
      exists ([] :: pieces); split.
      * rewrite E, Hj; destruct pieces; [destruct Hp | reflexivity].
      * destruct pieces; [destruct Hp|]; split; assumption.
    + destruct (IH cmd) as (pieces & Hj & Hp); [simpl in Hn; lia|].
      destruct pieces as [|p rest]; [destruct Hp|].
      exists ((c :: p) :: rest); split.
      * rewrite Hj; destruct rest; reflexivity.
      * destruct rest as [|p' rest].
        { simpl in *; subst cmd; intros H.
          apply occurs_cons_inv in H; destruct H as [H|H];
            [congruence | contradiction]. }
        destruct Hp as [Hp1 Hp2]; split; [|exact Hp2].
        intros H; simpl in H; apply occurs_cons_inv in H.
        destruct H as [H|H]; [|contradiction].
        assert (Hcmd : c :: cmd
                       = (c :: p ++ removelast marker)
                           ++ [last marker 0%N] ++ join marker (p' :: rest)).
        { rewrite Hj.
          change (join marker (p :: p' :: rest))
            with (p ++ marker ++ join marker (p' :: rest)).
          generalize (join marker (p' :: rest)); intros tail.
          rewrite (app_removelast_last 0%N Hm) at 1.
          cbn [app]; rewrite <- !app_assoc; reflexivity. }
        apply (startswith_app_long _ _
                 ([last marker 0%N] ++ join marker (p' :: rest))) in H.
        rewrite <- Hcmd in H; congruence.
Qed.

Section SubstitutionFacts.

Context {platform : Platform}.

Lemma run_many_loop_run_each (cmd marker : str) (targets : list str) :
  forall (result : option str) (s : Session),
    run_many_loop cmd marker targets result s
    = run_each (map (fun value => str_replace cmd marker value) targets)
        result s.
Proof.
  induction targets as [|t ts IH]; intros result s; [reflexivity|].
  cbn [run_many_loop run_each map]; unfold bind.
  destruct (run_one_command (str_replace cmd marker t) true None None s)
    as [[r|x] s1]; [|reflexivity].
  destruct (gets env s1) as [[e|x] s2]; [|reflexivity].
  destruct (str_eqb r (FAIL e)); [reflexivity | apply IH].
Qed.

(** C4, as the code has it.  A non-empty marker cuts the template into the
    pieces between its occurrences, found from the left; for each value,
    the command line that [run_many_arguments] hands to [run_one_command]
    is these pieces joined by the value: every occurrence of the marker
    is replaced, not only the first. *)
Theorem run_many_arguments_substitutes_every_marker (cmd marker : str) :
  marker <> [] ->
  exists pieces,
    cmd = join marker pieces
    /\ marker_free_pieces marker pieces
    /\ forall (targets : list str) (s : Session),
         run_many_arguments cmd targets marker s
         = run_each (map (fun value => join value pieces) targets) None s.
Proof.
  intros Hm.
  destruct (marker_free_pieces_exist marker Hm (length cmd) cmd (le_n _))
    as (pieces & Hj & Hp).
  exists pieces; split; [exact Hj|]; split; [exact Hp|].
  intros targets s; unfold run_many_arguments.
  rewrite run_many_loop_run_each; f_equal.
  apply map_ext; intros value; rewrite Hj.
  apply str_replace_join; assumption.
Qed.

End SubstitutionFacts.

(** ** The theorems at work on the small platform *)

Lemma Environment_init_glyphs (platform : Platform) :
  PASS Environment_init <> FAIL Environment_init.
Proof. discriminate. Qed.

(** The scenario of the command [false]: [FAIL], and a non-zero exit code
    in [RESULT]. *)
Lemma run_one_command_live_verdict_witness :
  DEBUG (env (demo_session false)) = false
  /\ shlex_split (lit "false") = Returned [lit "false"]
  /\ exists verdict s',
       run_one_command (lit "false") true None None (demo_session false)
       = (Returned verdict, s')
       /\ (verdict = PASS (env (demo_session false)) <-> 1%Z = 0%Z)
       /\ (verdict = FAIL (env (demo_session false)) <-> 1%Z <> 0%Z)
       /\ RESULT (env s')
          = Some {| args := [lit "false"]; returncode := 1;
                    stdout := Some []; stderr := Some [] |}
       /\ spawned s'
          = [] ++ [([lit "false"],
                    Returned {| args := [lit "false"]; returncode := 1;
                                stdout := Some []; stderr := Some [] |})]
       /\ host s' = 1.
Proof.
  split; [reflexivity|]; split; [reflexivity|].
  apply (@run_one_command_live_verdict demo_platform (lit "false") true
           None None (demo_session false) [lit "false"]
           {| args := [lit "false"]; returncode := 1;
              stdout := Some []; stderr := Some [] |} 1).
  - reflexivity.
  - discriminate.
  - reflexivity.
  - reflexivity.
Defined.

(** The scenario of three values with a failure on the second: the
    template [TARGET now] over [true], [false], [true]. *)
Example run_many_arguments_three_values :
  let (result, s') :=
    run_many_arguments (lit "TARGET now")
      [lit "true"; lit "false"; lit "true"] TARGET (demo_session false) in
  result = Returned (FAIL (env (demo_session false)))
  /\ map fst (spawned s')
     = [[lit "true"; lit "now"]; [lit "false"; lit "now"]]
  /\ host s' = 2.
Proof. vm_compute; repeat split. Qed.

Lemma run_many_arguments_short_circuit_witness :
  exists verdict s' pre run,
    run_many_arguments (lit "TARGET now")
      [lit "true"; lit "false"; lit "true"] TARGET (demo_session false)
    = (Returned verdict, s')
    /\ spawned s'
       = spawned (demo_session false)
           ++ map (fun p => (fst p, Returned (snd p))) (pre ++ [run])
    /\ length (pre ++ [run]) <= 3
    /\ Forall2
         (fun t p =>
            shlex_split (str_replace (lit "TARGET now") TARGET t)
            = Returned (fst p))
         (firstn (length (pre ++ [run]))
            [lit "true"; lit "false"; lit "true"])
         (pre ++ [run])
    /\ Forall (fun p => returncode (snd p) = 0%Z) pre
    /\ ((returncode (snd run) <> 0%Z
         /\ verdict = FAIL (env (demo_session false)))
        \/ (returncode (snd run) = 0%Z
            /\ verdict = PASS (env (demo_session false))
            /\ length (pre ++ [run]) = 3))
    /\ (verdict = PASS (env (demo_session false)) ->
        length (pre ++ [run]) = 3
        /\ Forall (fun p => returncode (snd p) = 0%Z) (pre ++ [run])).
Proof.
  apply (@run_many_arguments_short_circuit demo_platform (lit "TARGET now")
           TARGET [lit "true"; lit "false"; lit "true"] (demo_session false)).
  - discriminate.
  - reflexivity.
  - discriminate.
  - intros t [<-|[<-|[<-|[]]]].
    + exists [lit "true"; lit "now"]; split; [reflexivity|].
      intros h; eexists; eexists; reflexivity.
    + exists [lit "false"; lit "now"]; split; [reflexivity|].
      intros h; eexists; eexists; reflexivity.
    + exists [lit "true"; lit "now"]; split; [reflexivity|].
      intros h; eexists; eexists; reflexivity.
Defined.

(** C3, as the specification has it, fails on a command line with an
    unclosed quotation: in dry-run mode [shlex.split] still runs, for the
    trace, and raises. *)
Lemma run_one_command_dry_run_malformed :
  ~ (forall (platform : Platform) (cmd : str) (s : Session),
        DEBUG (env s) = true ->
        fst (run_one_command cmd true None None s)
        = Returned (PASS (env s))).
Proof.
  intros H.
  specialize (H demo_platform (lit "echo 'oops") (demo_session true) eq_refl).
  vm_compute in H; discriminate H.
Qed.

Example run_one_command_dry_run_unclosed_quotation :
  run_one_command (lit "echo 'oops") true None None (demo_session true)
  = (Raised (ValueError (lit "No closing quotation")), demo_session true).
Proof. reflexivity. Qed.

Lemma run_one_command_dry_run_witness :
  DEBUG (env (demo_session true)) = true
  /\ exists result s',
       run_one_command (lit "rm -rf 'my files'") true None None
         (demo_session true) = (result, s')
       /\ spawned s' = []
       /\ host s' = 0
       /\ env s' = env (demo_session true)
       /\ ((exists argv,
               shlex_split (lit "rm -rf 'my files'") = Returned argv
               /\ result = Returned (PASS (env (demo_session true)))
               /\ sys_stdout s'
                  = sys_stdout (demo_session true)
                      ++ ([NL] ++ lit "Running: " ++ demo_repr argv) ++ [NL])
           \/ (exists msg,
                  shlex_split (lit "rm -rf 'my files'")
                  = Raised (ValueError msg)
                  /\ result = Raised (ValueError msg)
                  /\ s' = demo_session true)).
Proof.
  split; [reflexivity|].
  apply (@run_one_command_dry_run demo_platform (lit "rm -rf 'my files'")
           true None None (demo_session true)).
  reflexivity.
Defined.

(** C4, as the specification has it, fails on a template that names the
    marker twice: both are replaced. *)
Lemma run_many_arguments_first_marker_only_fails :
  ~ (forall (platform : Platform) (cmd marker : str) (targets : list str)
            (s : Session),
        run_many_arguments cmd targets marker s
        = run_each
            (map (fun value => replace_first cmd marker value) targets)
            None s).
Proof.
  intros H.
  specialize (H demo_platform (lit "true TARGET TARGET.bak") TARGET
                [lit "x"] (demo_session false)).
  vm_compute in H; discriminate H.
Qed.

Example run_many_arguments_two_markers :
  map fst (spawned (snd (run_many_arguments (lit "true TARGET TARGET.bak")
                           [lit "x"] TARGET (demo_session false))))
  = [[lit "true"; lit "x"; lit "x.bak"]]
  /\ shlex_split (replace_first (lit "true TARGET TARGET.bak") TARGET (lit "x"))
     = Returned [lit "true"; lit "x"; lit "TARGET.bak"].
Proof. vm_compute; split; reflexivity. Qed.

Lemma run_many_arguments_substitutes_every_marker_witness :
  TARGET <> []
  /\ exists pieces,
       lit "true TARGET TARGET.bak" = join TARGET pieces
       /\ marker_free_pieces TARGET pieces
       /\ forall (targets : list str) (s : @Session demo_platform),
            run_many_arguments (lit "true TARGET TARGET.bak") targets TARGET s
            = run_each (map (fun value => join value pieces) targets) None s.
Proof.
  assert (H : TARGET <> []) by discriminate.
  split; [exact H|].
  exact (@run_many_arguments_substitutes_every_marker demo_platform
           (lit "true TARGET TARGET.bak") TARGET H).
Defined.

(** * Further properties of the library *)

(** ** [str.strip] *)

Lemma str_lstrip_split (s : str) :
  exists pre, s = pre ++ str_lstrip s /\ Forall (fun c => isspace c = true) pre.
Proof.
  induction s as [|c s (pre & Hs & Hpre)]; [exists []; split; [reflexivity|constructor]|].
  cbn [str_lstrip]; destruct (isspace c) eqn:E.
  - exists (c :: pre); split; [simpl; f_equal; exact Hs | constructor; assumption].
  - exists []; split; [reflexivity | constructor].
Qed.

Lemma str_lstrip_head (s : str) (c : char) (t : str) :
  str_lstrip s = c :: t -> isspace c = false.
Proof.
  induction s as [|x s IH]; cbn [str_lstrip]; [discriminate|].
  destruct (isspace x) eqn:E; [exact IH|].
  intros H; injection H as <- _; exact E.
Qed.

Lemma str_lstrip_id (s : str) :
  (forall c t, s = c :: t -> isspace c = false) -> str_lstrip s = s.
Proof.
  destruct s as [|c s]; [reflexivity|]; intros H; cbn [str_lstrip].
  rewrite (H c s eq_refl); reflexivity.
Qed.

Lemma str_rstrip_split (s : str) :
  exists suf, s = str_rstrip s ++ suf /\ Forall (fun c => isspace c = true) suf.
Proof.
  destruct (str_lstrip_split (rev s)) as (pre & Hs & Hpre).
  exists (rev pre); split.
  - unfold str_rstrip; rewrite <- rev_app_distr, <- Hs, rev_involutive.
    reflexivity.
  - apply Forall_rev; exact Hpre.
Qed.

Lemma str_rstrip_last (s t : str) (c : char) :
  str_rstrip s = t ++ [c] -> isspace c = false.
Proof.
  unfold str_rstrip; intros H.
  apply (f_equal (@rev char)) in H.
  rewrite rev_involutive, rev_app_distr in H; simpl in H.
  exact (str_lstrip_head _ _ _ H).
Qed.

Lemma str_rstrip_id (s : str) :
  (forall t c, s = t ++ [c] -> isspace c = false) -> str_rstrip s = s.
Proof.
  intros H; unfold str_rstrip; rewrite str_lstrip_id, rev_involutive;
    [reflexivity|].
  intros c t Hr; apply (H (rev t) c).
  rewrite <- (rev_involutive s), Hr; reflexivity.
Qed.

Lemma str_rstrip_head (s : str) (c : char) (t : str) :
  isspace c = false -> exists t', str_rstrip (c :: t) = c :: t'.
Proof.
  intros Hc; destruct (str_rstrip_split (c :: t)) as (suf & Hs & Hsuf).
  destruct (str_rstrip (c :: t)) as [|c' t'].
  - simpl in Hs; subst suf; inversion Hsuf; congruence.
  - injection Hs as <- _; exists t'; reflexivity.
Qed.

Lemma str_strip_trimmed (s : str) : trimmed (str_strip s).
Proof.
  unfold str_strip; split.
  - intros c t H; destruct (str_lstrip s) as [|c0 u] eqn:E; [discriminate|].
    pose proof (str_lstrip_head _ _ _ E) as Hc0.
    destruct (str_rstrip_head (c0 :: u) c0 u Hc0) as [t' Ht'].
    rewrite Ht' in H; injection H as <- _; exact Hc0.
  - intros t c H; exact (str_rstrip_last _ _ _ H).
Qed.

Lemma str_strip_id (l : str) : trimmed l -> str_strip l = l.
Proof.
  intros [Hh Ht]; unfold str_strip.
  rewrite (str_lstrip_id l Hh); apply str_rstrip_id; exact Ht.
Qed.

Lemma str_strip_In (s : str) (c : char) : In c (str_strip s) -> In c s.
Proof.
  unfold str_strip; intros H.
  destruct (str_lstrip_split s) as (pre & Hs & _).
  destruct (str_rstrip_split (str_lstrip s)) as (suf & Hr & _).
  rewrite Hs, Hr; apply in_or_app; right; apply in_or_app; left; exact H.
Qed.

(** ** [Labels]: what the constructor builds *)

Lemma str_split_single (sep : char) (l : str) :
  ~ In sep l -> str_split sep l = [l].
Proof.
  induction l as [|c l IH]; intros H; [reflexivity|]; cbn [str_split].
  destruct (N.eqb_spec c sep) as [->|_]; [exfalso; apply H; left; reflexivity|].
  rewrite IH; [reflexivity | intros Hin; apply H; right; exact Hin].
Qed.

Lemma str_split_app (sep : char) (l rest : str) :
  ~ In sep l -> str_split sep (l ++ sep :: rest) = l :: str_split sep rest.
Proof.
  induction l as [|c l IH]; intros H; cbn [app str_split].
  - rewrite N.eqb_refl; reflexivity.
  - destruct (N.eqb_spec c sep) as [->|_];
      [exfalso; apply H; left; reflexivity|].
    rewrite IH; [reflexivity | intros Hin; apply H; right; exact Hin].
Qed.

Lemma str_split_join_lines (sep : char) (ls : list str) :
  ls <> [] -> Forall (fun l => ~ In sep l) ls ->
  str_split sep (join [sep] ls) = ls.
Proof.
  induction ls as [|l ls IH]; intros Hne Hall; [contradiction|].
  inversion Hall as [|? ? Hl Hls]; subst.
  destruct ls as [|l' ls].
  - apply str_split_single; exact Hl.
  - change (join [sep] (l :: l' :: ls))
      with (l ++ sep :: join [sep] (l' :: ls)).
    rewrite str_split_app, IH; auto; discriminate.
Qed.

Lemma stripped_tokens_label_text (tokens : list str) :
  Forall (fun line => ~ In NL line) tokens ->
  Forall label_text (stripped_tokens tokens).
Proof.
  induction tokens as [|t ts IH]; intros H; [constructor|].
  inversion H as [|? ? Ht Hts]; subst; cbn [stripped_tokens].
  destruct (truthy (str_strip t)) eqn:E; [|apply IH; exact Hts].
  constructor; [|apply IH; exact Hts].
  split; [apply truthy_true; exact E|]; split; [apply str_strip_trimmed|].
  intros Hin; apply Ht, str_strip_In; exact Hin.
Qed.

Lemma stripped_tokens_id (ls : list str) :
  Forall label_text ls -> stripped_tokens ls = ls.
Proof.
  induction ls as [|l ls IH]; intros H; [reflexivity|].
  inversion H as [|? ? (Hne & Htr & _) Hls]; subst; cbn [stripped_tokens].
  rewrite (str_strip_id l Htr), (proj2 (truthy_true l) Hne), IH; auto.
Qed.

Lemma Labels_init_clean (s : str) (q : Labels) :
  Labels_init s = Returned q ->
  labels q <> []
  /\ Forall label_text (labels q)
  /\ Forall (fun l => length l + 3 <= pad q) (labels q)
  /\ (exists l, In l (labels q) /\ pad q = length l + 3)
  /\ 4 <= pad q.
Proof.
  intros H; unfold Labels_init in H.
  pose proof (stripped_tokens_label_text _ (str_split_lines NL s)) as Hclean.
  destruct (stripped_tokens (str_split NL s)) as [|x l] eqn:E;
    [discriminate|].
  cbn [max_key_len] in H; injection H as <-; cbn [labels pad].
  pose proof (max_len_from_length x l) as Hmax.
  pose proof (max_len_from_In x l) as Hin.
  split; [discriminate|]; split; [exact Hclean|]; split; [|split].
  - rewrite Hmax; apply Forall_forall; intros y [<-|Hy]; [lia|].
    assert (length y <= list_max (map (@length char) l)); [|lia].
    pose proof (proj1 (list_max_le (map (@length char) l) _) (le_n _)) as Hle.
    rewrite Forall_forall in Hle; apply Hle, in_map; exact Hy.
  - exists (max_len_from x l); split; [exact Hin | reflexivity].
  - assert (Hx : In (max_len_from x l) (x :: l)) by exact Hin.
    rewrite Forall_forall in Hclean.
    destruct (Hclean _ Hx) as (Hne & _).
    destruct (max_len_from x l); [contradiction | simpl; lia].
Qed.

(** X1.  Every label of a constructed queue is a non-empty piece of one
    line, without white space at its ends; the queue is not empty; the
    padding width is at least 4, exceeds every label by 3 or more and
    exceeds a longest one by exactly 3. *)
Theorem Labels_init_label_text (s : str) (q : Labels) :
  Labels_init s = Returned q ->
  labels q <> []
  /\ Forall label_text (labels q)
  /\ Forall (fun l => length l + 3 <= pad q) (labels q)
  /\ (exists l, In l (labels q) /\ pad q = length l + 3)
  /\ 4 <= pad q.
Proof. exact (Labels_init_clean s q). Qed.

Lemma Labels_init_label_text_witness :
  Labels_init scenario_text
  = Returned {| labels := [lit "Step One"; lit "Step Two"]; pad := 11 |}
  /\ Forall label_text [lit "Step One"; lit "Step Two"].
Proof.
  assert (H : Labels_init scenario_text
              = Returned {| labels := [lit "Step One"; lit "Step Two"];
                            pad := 11 |}) by reflexivity.
  split; [exact H|].
  exact (proj1 (proj2 (Labels_init_label_text scenario_text _ H))).
Defined.

(** X2.  On a constructed queue every call of [next] fills exactly [pad]
    columns: the label, then three dots or more.  So after [k] calls the
    terminal has received [k * pad] characters, wherever the labels end. *)
Theorem Labels_next_fills_pad (s : str) (q : Labels) (out : str) (k : nat) :
  Labels_init s = Returned q ->
  k <= length (labels q) ->
  Forall (fun l => exists dots,
              ljust_dots l (pad q) = l ++ repeat DOT dots
              /\ 3 <= dots /\ length l + dots = pad q) (labels q)
  /\ exists st',
       repeat_next k {| self := q; console := out |} = (Returned tt, st')
       /\ length (console st') = length out + k * pad q.
Proof.
  intros Hq Hk.
  destruct (Labels_init_clean s q Hq) as (_ & _ & Hpad & _).
  assert (Hfield : Forall (fun l => length (ljust_dots l (pad q)) = pad q)
                     (labels q)).
  { apply Forall_forall; intros l Hl; rewrite Forall_forall in Hpad.
    pose proof (Hpad l Hl); unfold ljust_dots.
    rewrite length_app, repeat_length; lia. }
  split.
  - apply Forall_forall; intros l Hl; rewrite Forall_forall in Hpad.
    pose proof (Hpad l Hl); exists (pad q - length l); unfold ljust_dots.
    split; [reflexivity | lia].
  - destruct q as [l w]; cbn [labels pad] in *.
    rewrite (repeat_next_prefix k l w out Hk).
    eexists; split; [reflexivity|]; cbn [console].
    rewrite length_app; f_equal.
    clear Hq Hpad; revert l Hk Hfield; induction k as [|k IH]; intros l Hk Hf.
    + reflexivity.
    + destruct l as [|x l]; [simpl in Hk; lia|].
      inversion Hf as [|? ? Hx Hl]; subst.
      cbn [firstn map concat]; rewrite length_app, Hx, IH;
        [simpl; lia | simpl in Hk; lia | exact Hl].
Qed.

Lemma Labels_next_fills_pad_witness :
  1 <= 2
  /\ exists st',
       repeat_next 1 {| self := {| labels := [lit "Step One"; lit "Step Two"];
                                   pad := 11 |};
                        console := lit "> " |} = (Returned tt, st')
       /\ length (console st') = 2 + 1 * 11.
Proof.
  split; [lia|].
  exact (proj2 (Labels_next_fills_pad scenario_text
                  {| labels := [lit "Step One"; lit "Step Two"]; pad := 11 |}
                  (lit "> ") 1 eq_refl (le_S _ _ (le_n 1)))).
Defined.

(** X3.  Writing label texts one per line and constructing a queue from
    the block gives these labels back, in order, with the padding width of
    the longest plus 3. *)
Theorem Labels_init_join_lines (ls : list str) :
  ls <> [] ->
  Forall label_text ls ->
  Labels_init (join [NL] ls)
  = Returned {| labels := ls; pad := list_max (map (@length char) ls) + 3 |}.
Proof.
  intros Hne Hall; unfold Labels_init.
  rewrite str_split_join_lines, stripped_tokens_id; auto.
  - destruct ls as [|x l]; [contradiction|]; cbn [max_key_len].
    rewrite max_len_from_length; reflexivity.
  - apply Forall_forall; intros l Hl; rewrite Forall_forall in Hall.
    exact (proj2 (proj2 (Hall l Hl))).
Qed.

Lemma Labels_init_join_lines_witness :
  [lit "Updating package index"; lit "Cleaning up"] <> []
  /\ Labels_init (join [NL] [lit "Updating package index"; lit "Cleaning up"])
     = Returned {| labels := [lit "Updating package index"; lit "Cleaning up"];
                   pad := 25 |}.
Proof.
  split; [discriminate|].
  refine (Labels_init_join_lines
            [lit "Updating package index"; lit "Cleaning up"] _ _).
  - discriminate.
  - repeat constructor; try discriminate.
    + intros c t H; injection H as <- _; reflexivity.
    + intros t c H; apply (f_equal (@rev char)) in H.
      rewrite rev_app_distr in H; injection H as <- _; reflexivity.
    + intros H; repeat (destruct H as [H|H]; [discriminate H|]); exact H.
    + intros c t H; injection H as <- _; reflexivity.
    + intros t c H; apply (f_equal (@rev char)) in H.
      rewrite rev_app_distr in H; injection H as <- _; reflexivity.
    + intros H; repeat (destruct H as [H|H]; [discriminate H|]); exact H.
Defined.

(** ** [Labels]: what no call changes *)

Lemma subseq_refl {A : Type} (l : list A) : subseq l l.
Proof. induction l; constructor; assumption. Qed.

Lemma subseq_trans {A : Type} (a b c : list A) :
  subseq a b -> subseq b c -> subseq a c.
Proof.
  intros Hab Hbc; revert a Hab; induction Hbc as [|x b c Hbc IH|x b c Hbc IH];
    intros a Hab.
  - exact Hab.
  - apply subseq_skip, IH; exact Hab.
  - inversion Hab; subst.
    + apply subseq_skip, IH; assumption.
    + apply subseq_keep, IH; assumption.
Qed.

Lemma subseq_remove_nth {A : Type} (i : nat) (l : list A) :
  subseq (remove_nth i l) l.
Proof.
  revert i; induction l as [|x l IH]; intros i;
    [destruct i; apply subseq_nil|].
  destruct i; cbn [remove_nth].
  - apply subseq_skip, subseq_refl.
  - apply subseq_keep, IH.
Qed.

Lemma subseq_skipn {A : Type} (n : nat) (l : list A) : subseq (skipn n l) l.
Proof.
  revert l; induction n as [|n IH]; intros l; [apply subseq_refl|].
  destruct l; [apply subseq_nil | apply subseq_skip, IH].
Qed.

Lemma list_pop_cases {A : Type} (l : list A) (index : Z) :
  l <> [] ->
  (exists (i : nat) (x : A), list_pop l index = Returned (x, remove_nth i l))
  \/ list_pop l index = Raised (IndexError (lit "pop index out of range"))
  \/ ((index < PY_SSIZE_T_MIN \/ PY_SSIZE_T_MAX < index)%Z
      /\ list_pop l index
         = Raised (OverflowError
                     (lit "Python int too large to convert to C ssize_t"))).
Proof.
  intros Hl.
  destruct (Z.lt_ge_cases index PY_SSIZE_T_MIN) as [Hlo|Hlo];
    [right; right; split; [left; exact Hlo | apply list_pop_overflow; left; exact Hlo]|].
  destruct (Z.lt_ge_cases PY_SSIZE_T_MAX index) as [Hhi|Hhi];
    [right; right; split; [right; exact Hhi | apply list_pop_overflow; right; exact Hhi]|].
  rewrite list_pop_ssize by lia.
  unfold list_pop_impl; destruct l as [|d l]; [contradiction|].
  cbv zeta.
  destruct ((_ <? 0)%Z || (_ <=? _)%Z);
    [right; left; reflexivity | left; eexists; eexists; reflexivity].
Qed.


Lemma labels_kept_refl (st : LabelsIO) : labels_kept st st.
Proof.
  repeat split; [apply subseq_refl | exists []; rewrite app_nil_r; reflexivity].
Qed.

Lemma labels_kept_trans (a b c : LabelsIO) :
  labels_kept a b -> labels_kept b c -> labels_kept a c.
Proof.
  intros (Hp1 & Hs1 & m1 & Hc1) (Hp2 & Hs2 & m2 & Hc2); repeat split.
  - congruence.
  - eapply subseq_trans; eassumption.
  - exists (m1 ++ m2); rewrite Hc2, Hc1, app_assoc; reflexivity.
Qed.

Lemma call_labels_kept (c : LabelsCall) (st : LabelsIO) :
  labels_kept st (snd (call_labels c st)).
Proof.
  destruct st as [[l w] out].
  assert (Hdrop : forall l', subseq l' l ->
            labels_kept {| self := {| labels := l; pad := w |}; console := out |}
              {| self := {| labels := l'; pad := w |}; console := out |}).
  { intros l' Hl'; repeat split; [exact Hl'|].
    exists []; rewrite app_nil_r; reflexivity. }
  destruct c as [| | |index|n]; cbn [call_labels].
  - destruct l as [|x l].
    + rewrite Labels_next_nil; apply labels_kept_refl.
    + rewrite Labels_next_cons; repeat split; cbn [self labels pad console].
      * apply subseq_skip, subseq_refl.
      * eexists; reflexivity.
  - destruct l as [|x l]; [apply labels_kept_refl|].
    apply Hdrop, subseq_skip, subseq_refl.
  - destruct l as [|x l]; [apply labels_kept_refl|].
    unfold bind.
    rewrite (Labels_pop_last_eq {| labels := x :: l; pad := w |} out)
      by discriminate.
    cbn [snd ret labels pad]; apply Hdrop.
    rewrite <- remove_nth_last; apply subseq_remove_nth.
  - destruct l as [|x l]; [apply labels_kept_refl|].
    unfold bind.
    destruct (list_pop_cases (x :: l) index) as [(i & y & Hp) | [Hp | [Hi Hp]]];
      [discriminate| | |].
    + rewrite (Labels_pop_item_in_range {| labels := x :: l; pad := w |} out
                 index y _ ltac:(discriminate) Hp).
      cbn [snd ret]; apply Hdrop, subseq_remove_nth.
    + rewrite (Labels_pop_item_out_of_range {| labels := x :: l; pad := w |}
                 out index _ ltac:(discriminate) Hp).
      cbn [snd]; repeat split; [apply subseq_refl|].
      cbn [console]; eexists; rewrite <- app_assoc; reflexivity.
    + rewrite (Labels_pop_item_overflow {| labels := x :: l; pad := w |}
                 out index ltac:(discriminate) Hi).
      cbn [snd]; apply labels_kept_refl.
  - rewrite Labels_dump_eq; cbn [snd labels pad].
    apply Hdrop; destruct (_ && _); [apply subseq_skipn | apply subseq_refl].
Qed.

(** X4.  Whatever calls a script makes on a queue, and whether or not one
    of them raises, the padding width stays what it was, the labels still
    in the queue are in their original order, and nothing already printed
    is taken back. *)
Theorem Labels_calls_keep (cs : list LabelsCall) (st : LabelsIO) :
  pad (self (snd (call_all cs st))) = pad (self st)
  /\ subseq (labels (self (snd (call_all cs st)))) (labels (self st))
  /\ exists more, console (snd (call_all cs st)) = console st ++ more.
Proof.
  change (labels_kept st (snd (call_all cs st))).
  revert st; induction cs as [|c cs IH]; intros st;
    [apply labels_kept_refl|].
  cbn [call_all]; unfold bind.
  pose proof (call_labels_kept c st) as Hc.
  destruct (call_labels c st) as [[[]|x] st1]; cbn [snd] in *.
  - eapply labels_kept_trans; [exact Hc | apply IH].
  - exact Hc.
Qed.

(** ** [Labels]: discarding *)

Lemma Labels_pop_first_cons (x : str) (l : list str) (w : nat) (out : str) :
  Labels_pop_first {| self := {| labels := x :: l; pad := w |}; console := out |}
  = (Returned x, {| self := {| labels := l; pad := w |}; console := out |}).
Proof. reflexivity. Qed.

Lemma repeat_pop_first_prefix (k : nat) :
  forall (l : list str) (w : nat) (out : str),
    k <= length l ->
    repeat_pop_first k {| self := {| labels := l; pad := w |}; console := out |}
    = (Returned tt,
       {| self := {| labels := skipn k l; pad := w |}; console := out |}).
Proof.
  induction k as [|k IH]; intros l w out Hk; [reflexivity|].
  destruct l as [|x l]; [simpl in Hk; lia|].
  cbn [repeat_pop_first]; unfold bind; rewrite Labels_pop_first_cons.
  apply IH; simpl in Hk; lia.
Qed.

Lemma repeat_pop_first_beyond (k : nat) :
  forall (l : list str) (w : nat) (out : str),
    length l < k ->
    repeat_pop_first k {| self := {| labels := l; pad := w |}; console := out |}
    = (Raised ExhaustedListError,
       {| self := {| labels := []; pad := w |}; console := out |}).
Proof.
  induction k as [|k IH]; intros l w out Hk; [lia|].
  destruct l as [|x l]; [reflexivity|].
  cbn [repeat_pop_first]; unfold bind; rewrite Labels_pop_first_cons.
  apply IH; simpl in Hk; lia.
Qed.

(** X5.  [dump(n)] with [0 < n <= len] leaves what [n] calls of
    [pop_first] leave.  With [n > len] it refuses: nothing is removed and
    nothing raised, where [n] calls of [pop_first] would empty the queue
    and raise [ExhaustedListError].  With [n <= 0] it does nothing. *)
Theorem Labels_dump_pop_first (q : Labels) (out : str) (n : Z) :
  let len := Z.of_nat (length (labels q)) in
  let st := {| self := q; console := out |} in
  ((0 < n <= len)%Z ->
     Labels_dump n st = repeat_pop_first (Z.to_nat n) st)
  /\ ((len < n)%Z ->
      Labels_dump n st = (Returned tt, st)
      /\ repeat_pop_first (Z.to_nat n) st
         = (Raised ExhaustedListError,
            {| self := {| labels := []; pad := pad q |}; console := out |}))
  /\ ((n <= 0)%Z -> Labels_dump n st = (Returned tt, st)).
Proof.
  intros len st; unfold st; rewrite Labels_dump_eq.
  destruct q as [l w]; cbn [labels pad] in *.
  split; [|split].
  - intros Hn; rewrite repeat_pop_first_prefix by lia.
    destruct (Z.ltb_spec 0 n); [|lia].
    destruct (Z.leb_spec n (Z.of_nat (length l))); [reflexivity | lia].
  - intros Hn; rewrite repeat_pop_first_beyond by lia.
    destruct (Z.ltb_spec 0 n); [|lia].
    destruct (Z.leb_spec n (Z.of_nat (length l))); [lia|].
    split; reflexivity.
  - intros Hn; destruct (Z.ltb_spec 0 n); [lia | reflexivity].
Qed.

Lemma Labels_dump_pop_first_witness :
  (0 < 2 <= 3)%Z
  /\ Labels_dump 2
       {| self := {| labels := [lit "one"; lit "two"; lit "three"]; pad := 8 |};
          console := [] |}
     = repeat_pop_first 2
         {| self := {| labels := [lit "one"; lit "two"; lit "three"];
                       pad := 8 |};
            console := [] |}.
Proof.
  split; [lia|].
  refine (proj1 (Labels_dump_pop_first
                   {| labels := [lit "one"; lit "two"; lit "three"];
                      pad := 8 |} [] 2) _).
  simpl; lia.
Defined.

(** ** [Labels]: [pop_item] at every index *)

Lemma list_pop_in_range {A : Type} (l : list A) (d : A) (index : Z) :
  l <> [] ->
  (PY_SSIZE_T_MIN <= index <= PY_SSIZE_T_MAX)%Z ->
  (- Z.of_nat (length l) <= index < Z.of_nat (length l))%Z ->
  list_pop l index
  = Returned (nth (Z.to_nat (index mod Z.of_nat (length l))) l d,
              remove_nth (Z.to_nat (index mod Z.of_nat (length l))) l).
Proof.
  intros Hl Hs Hi.
  destruct (Z.lt_ge_cases index 0) as [Hneg|Hpos].
  - rewrite (list_pop_negative_in_range l d index Hl) by lia.
    rewrite <- (Z_mod_plus_full index 1 (Z.of_nat (length l))).
    rewrite Z.mod_small by lia.
    rewrite Z.mul_1_l, Z.add_comm; reflexivity.
  - rewrite Z.mod_small by lia.
    rewrite list_pop_ssize by exact Hs.
    unfold list_pop_impl; destruct l as [|x l]; [contradiction|].
    set (n := Z.of_nat (length (x :: l))) in *; cbv zeta.
    do 2 (destruct (Z.ltb_spec index 0); [lia|]).
    destruct (Z.leb_spec n index); [lia|].
    cbn [orb]; f_equal; f_equal; apply nth_indep.
    apply Nat2Z.inj_lt; fold n; lia.
Qed.

Lemma list_pop_out_of_range {A : Type} (l : list A) (index : Z) :
  l <> [] ->
  (PY_SSIZE_T_MIN <= index <= PY_SSIZE_T_MAX)%Z ->
  (index < - Z.of_nat (length l) \/ Z.of_nat (length l) <= index)%Z ->
  list_pop l index = Raised (IndexError (lit "pop index out of range")).
Proof.
  intros Hl Hs [Hi|Hi];
    [apply list_pop_negative_out_of_range; [assumption | lia | assumption]|].
  rewrite list_pop_ssize by exact Hs.
  unfold list_pop_impl; destruct l as [|x l]; [contradiction|].
  set (n := Z.of_nat (length (x :: l))) in *.
  assert (0 <= n)%Z by apply Nat2Z.is_nonneg.
  cbv zeta; do 2 (destruct (Z.ltb_spec index 0); [lia|]).
  destruct (Z.leb_spec n index); [reflexivity | lia].
Qed.

(** X6.  [pop_item] at any index, on any queue.  An empty queue raises
    [ExhaustedListError] and prints nothing, whatever the index.  On a
    queue with labels, an index that [list.pop] cannot take as a C
    [Py_ssize_t] (below [-2^63] or above [2^63 - 1]) raises
    [OverflowError]: [pop_item] catches [IndexError] only, so this one
    reaches the caller, with nothing printed and the queue as it was.
    Any other index from [-len] to [len - 1] removes and returns the label
    at position [index mod len]; the remaining ones print the report, leave
    the queue as it is and end the process with [SystemExit(1)].
    [IndexError] never reaches the caller. *)
Theorem Labels_pop_item_every_index (q : Labels) (out : str) (index : Z) :
  let len := Z.of_nat (length (labels q)) in
  let st := {| self := q; console := out |} in
  Labels_pop_item index st
  = match labels q with
    | [] => (Raised ExhaustedListError, st)
    | _ :: _ =>
        if ((index <? PY_SSIZE_T_MIN) || (PY_SSIZE_T_MAX <? index))%Z
        then (Raised (OverflowError
                        (lit "Python int too large to convert to C ssize_t")),
              st)
        else if ((- len <=? index) && (index <? len))%Z
        then (Returned (nth (Z.to_nat (index mod len)) (labels q) []),
              {| self := {| labels := remove_nth (Z.to_nat (index mod len))
                                        (labels q);
                            pad := pad q |};
                 console := out |})
        else (Raised (SystemExit 1),
              {| self := q;
                 console :=
                   out ++ lit "pop index out of range. Attempting to pop index "
                       ++ str_of_int index ++ lit "." ++ [NL]
                       ++ lit "Terminating program." ++ [NL] |})
    end.
Proof.
  destruct q as [l w]; intros len st; cbn [labels pad] in *.
  destruct l as [|x l]; [reflexivity|].
  pose (q := {| labels := x :: l; pad := w |}).
  assert (Hl : labels q <> []) by discriminate.
  destruct (Z.ltb_spec index PY_SSIZE_T_MIN) as [Hmin|Hmin]; cbn [orb];
    [apply (Labels_pop_item_overflow q out index Hl); left; exact Hmin|].
  destruct (Z.ltb_spec PY_SSIZE_T_MAX index) as [Hmax|Hmax];
    [apply (Labels_pop_item_overflow q out index Hl); right; exact Hmax|].
  assert (Hs : (PY_SSIZE_T_MIN <= index <= PY_SSIZE_T_MAX)%Z) by lia.
  assert (Hout : (index < - len \/ len <= index)%Z ->
                 Labels_pop_item index st
                 = (Raised (SystemExit 1),
                    {| self := q;
                       console :=
                         out ++ lit "pop index out of range. Attempting to pop index "
                             ++ str_of_int index ++ lit "." ++ [NL]
                             ++ lit "Terminating program." ++ [NL] |})).
  { intros Hi.
    refine (eq_trans (Labels_pop_item_out_of_range q out index _ Hl
                        (list_pop_out_of_range (labels q) index Hl Hs Hi)) _).
    rewrite <- !app_assoc; reflexivity. }
  destruct (Z.leb_spec (- len) index) as [Hlo|Hlo];
    destruct (Z.ltb_spec index len) as [Hhi|Hhi]; cbn [andb];
    try (apply Hout; lia).
  apply (Labels_pop_item_in_range q out index _ _ Hl).
  apply (list_pop_in_range (x :: l) [] index Hl Hs); unfold len in *; lia.
Qed.

(** ** Splitting a command line of plain words *)

Lemma plain_char_classes (c : char) :
  plain_char c = true ->
  char_in c shlex_whitespace = false
  /\ char_in c shlex_quotes = false
  /\ char_in c shlex_escape = false.
Proof.
  unfold plain_char; rewrite !andb_true_iff, !negb_true_iff; tauto.
Qed.

Lemma read_tokens_word (w : str) :
  forall (token rest : str) (escapedstate : char),
    forallb plain_char w = true ->
    read_tokens (w ++ rest) WORD token false escapedstate
    = read_tokens rest WORD (token ++ w) false escapedstate.
Proof.
  induction w as [|c w IH]; intros token rest esc Hw.
  - rewrite app_nil_r; reflexivity.
  - cbn [forallb] in Hw; apply andb_true_iff in Hw; destruct Hw as [Hc Hw].
    destruct (plain_char_classes c Hc) as (Hws & Hq & He).
    cbn [app read_tokens].
    change (N.eqb WORD SPACE) with false.
    change (char_in WORD shlex_quotes) with false.
    change (char_in WORD shlex_escape) with false.
    cbv iota; rewrite Hws, Hq, He, IH by exact Hw.
    rewrite <- app_assoc; reflexivity.
Qed.

Lemma read_tokens_word_start (c : char) (rest : str) (escapedstate : char) :
  plain_char c = true ->
  read_tokens (c :: rest) SPACE [] false escapedstate
  = read_tokens rest WORD [c] false escapedstate.
Proof.
  intros Hc; destruct (plain_char_classes c Hc) as (Hws & Hq & He).
  cbn [read_tokens]; change (N.eqb SPACE SPACE) with true.
  cbv iota; rewrite Hws, Hq, He.
  destruct (shlex_wordchars c); reflexivity.
Qed.

Lemma read_tokens_plain_words (words : list str) :
  Forall plain_word words ->
  forall escapedstate,
    read_tokens (join [SPACE] words) SPACE [] false escapedstate
    = Returned words.
Proof.
  induction words as [|w words IH]; intros Hall esc; [reflexivity|].
  inversion Hall as [|? ? [Hne Hw] Hrest]; subst.
  destruct w as [|c w]; [contradiction|].
  cbn [forallb] in Hw; apply andb_true_iff in Hw; destruct Hw as [Hc Hw].
  destruct words as [|w' words].
  - cbn [join]; rewrite (read_tokens_word_start c w esc Hc).
    rewrite <- (app_nil_r w) at 1; rewrite (read_tokens_word w [c] [] esc Hw).
    reflexivity.
  - change (join [SPACE] ((c :: w) :: w' :: words))
      with (c :: w ++ SPACE :: join [SPACE] (w' :: words)).
    rewrite (read_tokens_word_start c _ esc Hc).
    rewrite (read_tokens_word w [c] _ esc Hw).
    cbn [read_tokens].
    change (N.eqb WORD SPACE) with false.
    change (char_in WORD shlex_quotes) with false.
    change (char_in WORD shlex_escape) with false.
    change (char_in SPACE shlex_whitespace) with true.
    cbv iota; cbn [app truthy orb].
    rewrite (IH Hrest SPACE); reflexivity.
Qed.

Lemma shlex_split_plain_words (words : list str) :
  Forall plain_word words -> shlex_split (join [SPACE] words) = Returned words.
Proof. intros H; exact (read_tokens_plain_words words H SPACE). Qed.

(** ** The command runner: arguments, errors, and what stays *)

Section RunnerMore.

Context {platform : Platform}.

Lemma run_one_command_live_cases (cmd : str) (capture : bool)
    (std_in std_out : option TextIO) (s : Session) :
  DEBUG (env s) = false ->
  run_one_command cmd capture std_in std_out s
  = match shlex_split cmd with
    | Raised x => (Raised x, s)
    | Returned argv =>
        match subprocess_run argv capture std_in std_out (host s) with
        | (Returned r, h') =>
            (Returned (if negb (returncode r =? 0)%Z then FAIL (env s)
                       else PASS (env s)),
             {| env := set_RESULT (Some r) (env s); host := h';
                spawned := spawned s ++ [(argv, Returned r)];
                sys_stdout := sys_stdout s |})
        | (Raised x, h') =>
            (Raised x,
             {| env := env s; host := h';
                spawned := spawned s ++ [(argv, Raised x)];
                sys_stdout := sys_stdout s |})
        end
    end.
Proof.
  intros Hd.
  unfold run_one_command, bind, gets, call, sp_run, assign_RESULT, modify, ret.
  rewrite Hd; destruct (shlex_split cmd) as [argv|x]; [|reflexivity].
  destruct (subprocess_run argv capture std_in std_out (host s)) as [[r|x] h'];
    cbn [env host spawned sys_stdout]; [|reflexivity].
  destruct (negb (returncode r =? 0)%Z); reflexivity.
Qed.

Lemma run_one_command_words (words : list str) (capture : bool)
    (std_in std_out : option TextIO) (s : Session) :
  DEBUG (env s) = false ->
  Forall plain_word words ->
  let s' := snd (run_one_command (join [SPACE] words) capture std_in std_out s) in
  spawned s'
  = spawned s
      ++ [(words, fst (subprocess_run words capture std_in std_out (host s)))]
  /\ host s' = snd (subprocess_run words capture std_in std_out (host s)).
Proof.
  intros Hd Hw s'; unfold s'.
  rewrite (run_one_command_live_cases _ capture std_in std_out s Hd).
  rewrite (shlex_split_plain_words words Hw).
  destruct (subprocess_run words capture std_in std_out (host s))
    as [[r|x] h']; split; reflexivity.
Qed.

(** X7.  In live mode a command line made of plain words, one space
    between them, reaches [subprocess.run] as exactly these words: one
    call, one argument per word, whatever the call then does. *)
Theorem run_one_command_plain_words (words : list str) (capture : bool)
    (std_in std_out : option TextIO) (s : Session) :
  DEBUG (env s) = false ->
  Forall plain_word words ->
  let s' := snd (run_one_command (join [SPACE] words) capture std_in std_out s) in
  spawned s'
  = spawned s
      ++ [(words, fst (subprocess_run words capture std_in std_out (host s)))]
  /\ host s' = snd (subprocess_run words capture std_in std_out (host s)).
Proof. exact (run_one_command_words words capture std_in std_out s). Qed.

(** X8.  In live mode [run_one_command] raises in two cases only.  The
    command line cannot be split: nothing was run and nothing changed.  Or
    [subprocess.run] raised: the call is on record.  In both cases
    [RESULT] still holds what it held before, and nothing was printed. *)
Theorem run_one_command_live_raises (cmd : str) (capture : bool)
    (std_in std_out : option TextIO) (s s' : Session) (x : exn) :
  DEBUG (env s) = false ->
  run_one_command cmd capture std_in std_out s = (Raised x, s') ->
  env s' = env s
  /\ sys_stdout s' = sys_stdout s
  /\ ((shlex_split cmd = Raised x /\ s' = s)
      \/ exists argv h',
           shlex_split cmd = Returned argv
           /\ subprocess_run argv capture std_in std_out (host s)
              = (Raised x, h')
           /\ spawned s' = spawned s ++ [(argv, Raised x)]
           /\ host s' = h').
Proof.
  intros Hd; rewrite (run_one_command_live_cases _ capture std_in std_out s Hd).
  destruct (shlex_split cmd) as [argv|y].
  - destruct (subprocess_run argv capture std_in std_out (host s))
      as [[r|y] h'] eqn:E; [discriminate|].
    intros H; injection H as <- <-; cbn [env sys_stdout spawned host].
    repeat split; right; exists argv, h'; auto.
  - intros H; injection H as <- <-; repeat split; left; auto.
Qed.

Lemma set_RESULT_same (e : Environment) : set_RESULT (RESULT e) e = e.
Proof. destruct e; reflexivity. Qed.

Lemma set_RESULT_twice (r r' : option CompletedProcess) (e : Environment) :
  set_RESULT r' (set_RESULT r e) = set_RESULT r' e.
Proof. reflexivity. Qed.

Lemma run_one_command_env (cmd : str) (capture : bool)
    (std_in std_out : option TextIO) (s : Session) :
  let s' := snd (run_one_command cmd capture std_in std_out s) in
  env s' = set_RESULT (RESULT (env s')) (env s).
Proof.
  destruct (DEBUG (env s)) eqn:Hd; cbv zeta.
  - rewrite (run_one_command_debug_eq _ capture std_in std_out s Hd).
    destruct (shlex_split cmd); cbn [snd env];
      symmetry; apply set_RESULT_same.
  - rewrite (run_one_command_live_cases _ capture std_in std_out s Hd).
    destruct (shlex_split cmd) as [argv|y];
      [|cbn [snd]; symmetry; apply set_RESULT_same].
    destruct (subprocess_run argv capture std_in std_out (host s))
      as [[r|y] h']; cbn [snd env];
      [reflexivity | symmetry; apply set_RESULT_same].
Qed.

Lemma run_many_loop_env (cmd marker : str) (targets : list str) :
  forall (result : option str) (s : Session),
    let s' := snd (run_many_loop cmd marker targets result s) in
    env s' = set_RESULT (RESULT (env s')) (env s).
Proof.
  induction targets as [|t ts IH]; intros result s; cbv zeta.
  - destruct result; cbn [run_many_loop snd ret raise];
      symmetry; apply set_RESULT_same.
  - cbn [run_many_loop]; unfold bind, gets.
    pose proof (run_one_command_env (str_replace cmd marker t) true None None s)
      as H1; cbv zeta in H1.
    destruct (run_one_command (str_replace cmd marker t) true None None s)
      as [[r|x] s1]; cbn [snd] in *; [|exact H1].
    destruct (str_eqb r (FAIL (env s1))); [exact H1|].
    pose proof (IH (Some r) s1) as H2; cbv zeta in H2.
    rewrite H2 at 1; rewrite H1 at 1; reflexivity.
Qed.

(** X9.  Neither [run_one_command] nor [run_many_arguments] changes any
    attribute of the [Environment] other than [RESULT], in either mode,
    whether they return or raise: the glyphs, the debug flag, the required
    version and the paths are after the call what they were before. *)
Theorem runner_keeps_Environment (cmd marker : str) (targets : list str)
    (capture : bool) (std_in std_out : option TextIO) (s : Session) :
  let e1 := env (snd (run_one_command cmd capture std_in std_out s)) in
  let e2 := env (snd (run_many_arguments cmd targets marker s)) in
  e1 = set_RESULT (RESULT e1) (env s)
  /\ e2 = set_RESULT (RESULT e2) (env s).
Proof.
  split; [apply run_one_command_env | apply run_many_loop_env].
Qed.

End RunnerMore.

(** ** The command runner: more on running one command per value *)

Section RunManyMore.

Context {platform : Platform}.

Lemma run_many_loop_dry_run_trace (cmd marker : str) (targets : list str) :
  forall (s : Session) (result : option str),
    targets <> [] ->
    DEBUG (env s) = true ->
    PASS (env s) <> FAIL (env s) ->
    Forall (fun t => exists argv,
                shlex_split (str_replace cmd marker t) = Returned argv)
      targets ->
    run_many_loop cmd marker targets result s
    = (Returned (PASS (env s)),
       {| env := env s; host := host s; spawned := spawned s;
          sys_stdout :=
            sys_stdout s
              ++ concat (map (fun t => dry_run_trace (str_replace cmd marker t))
                           targets) |}).
Proof.
  induction targets as [|t ts IH]; intros s result Hne Hd Hpf Hall;
    [contradiction|].
  inversion Hall as [|? ? [argv Hs] Hts]; subst.
  cbn [run_many_loop map concat]; unfold bind at 1.
  rewrite (run_one_command_debug_eq _ true None None s Hd).
  unfold dry_run_trace at 1; rewrite Hs.
  unfold bind, gets; cbn [env]; rewrite (str_eqb_neq _ _ Hpf).
  destruct ts as [|t' ts'].
  - cbn [run_many_loop ret map concat]; rewrite app_nil_r; reflexivity.
  - rewrite IH; try assumption; try discriminate.
    cbn [env host spawned sys_stdout]; rewrite <- app_assoc; reflexivity.
Qed.

(** X10.  In dry-run mode, over a non-empty list of values whose command
    lines can be split, [run_many_arguments] prints one trace per value,
    in list order, returns [PASS], runs nothing and leaves the host and the
    [Environment] as they were. *)
Theorem run_many_arguments_dry_run (cmd marker : str) (targets : list str)
    (s : Session) :
  targets <> [] ->
  DEBUG (env s) = true ->
  PASS (env s) <> FAIL (env s) ->
  Forall (fun t => exists argv,
              shlex_split (str_replace cmd marker t) = Returned argv)
    targets ->
  run_many_arguments cmd targets marker s
  = (Returned (PASS (env s)),
     {| env := env s; host := host s; spawned := spawned s;
        sys_stdout :=
          sys_stdout s
            ++ concat (map (fun t => dry_run_trace (str_replace cmd marker t))
                         targets) |}).
Proof. apply run_many_loop_dry_run_trace. Qed.

(** X11.  A template in which the marker does not occur is run as it is,
    once for every value: the values make no difference to the command. *)
Theorem run_many_arguments_marker_absent (cmd marker : str)
    (targets : list str) (s : Session) :
  marker <> [] ->
  ~ occurs marker cmd ->
  run_many_arguments cmd targets marker s
  = run_each (repeat cmd (length targets)) None s.
Proof.
  intros Hm Hn; unfold run_many_arguments.
  rewrite run_many_loop_run_each; f_equal.
  induction targets as [|t ts IH]; [reflexivity|].
  cbn [map length repeat]; rewrite IH; f_equal.
  destruct marker as [|m ms] eqn:E; [contradiction|].
  cbn [str_replace]; apply replace_from_absent; assumption.
Qed.

Lemma run_many_loop_after_failure (cmd marker : str) (targets : list str) :
  forall (result : option str) (s s' : Session) (r : outcome str),
    (forall v, result = Some v -> str_eqb v (FAIL (env s)) = false) ->
    targets <> [] \/ result <> None ->
    run_many_loop cmd marker targets result s = (r, s') ->
    r = Returned (FAIL (env s)) \/ (exists x, r = Raised x) ->
    forall more,
      run_many_loop cmd marker (targets ++ more) result s = (r, s').
Proof.
  induction targets as [|t ts IH]; intros result s s' r Hres Hne Hrun Hr more.
  - exfalso; destruct result as [v|]; [|destruct Hne; congruence].
    cbn [run_many_loop ret] in Hrun; injection Hrun as <- <-.
    destruct Hr as [Hr|[x Hr]]; [|discriminate].
    injection Hr as Hv; specialize (Hres v eq_refl).
    rewrite Hv, str_eqb_refl in Hres; discriminate.
  - cbn [app run_many_loop] in *; unfold bind, gets in *.
    pose proof (run_one_command_env (str_replace cmd marker t) true None None s)
      as He; cbv zeta in He.
    destruct (run_one_command (str_replace cmd marker t) true None None s)
      as [[v|x] s1]; cbn [snd] in He; [|exact Hrun].
    assert (Hf : FAIL (env s1) = FAIL (env s)) by (rewrite He; reflexivity).
    destruct (str_eqb v (FAIL (env s1))) eqn:E; [exact Hrun|].
    apply (IH (Some v) s1 s' r); auto.
    + intros v' Hv'; injection Hv' as <-; exact E.
    + right; discriminate.
    + rewrite Hf; exact Hr.
Qed.

(** X12.  Once [run_many_arguments] on a non-empty list has returned
    [FAIL], or has raised, the values that follow in a longer list are
    never looked at: with any values appended, the outcome and all effects
    are the same. *)
Theorem run_many_arguments_after_failure (cmd marker : str)
    (targets more : list str) (s s' : Session) (r : outcome str) :
  targets <> [] ->
  run_many_arguments cmd targets marker s = (r, s') ->
  r = Returned (FAIL (env s)) \/ (exists x, r = Raised x) ->
  run_many_arguments cmd (targets ++ more) marker s = (r, s').
Proof.
  intros Hne Hrun Hr; unfold run_many_arguments in *.
  apply (run_many_loop_after_failure cmd marker targets None s s' r); auto.
  discriminate.
Qed.

End RunManyMore.

(** ** The further runner theorems on the small platform *)

Lemma run_one_command_plain_words_witness :
  DEBUG (env (demo_session false)) = false
  /\ map fst
       (spawned
          (snd (run_one_command
                  (join [SPACE] [lit "true"; lit "-rc"; lit "--delete"])
                  true None None (demo_session false))))
     = [[lit "true"; lit "-rc"; lit "--delete"]].
Proof.
  split; [reflexivity|].
  pose proof (@run_one_command_plain_words demo_platform
                [lit "true"; lit "-rc"; lit "--delete"] true None None
                (demo_session false) eq_refl) as H.
  cbv zeta in H; rewrite (proj1 (H ltac:(repeat constructor; discriminate))).
  reflexivity.
Defined.

Lemma run_one_command_live_raises_witness :
  run_one_command (lit "ls -l") true None None (demo_session false)
  = (Raised (OSError 2),
     {| env := env (demo_session false); host := 0;
        spawned := [([lit "ls"; lit "-l"], Raised (OSError 2))];
        sys_stdout := [] |})
  /\ RESULT (env (demo_session false)) = None
  /\ env {| env := env (demo_session false); host := 0;
            spawned := [([lit "ls"; lit "-l"], Raised (OSError 2))];
            sys_stdout := [] |}
     = env (demo_session false).
Proof.
  assert (H : run_one_command (lit "ls -l") true None None (demo_session false)
              = (Raised (OSError 2),
                 {| env := env (demo_session false); host := 0;
                    spawned := [([lit "ls"; lit "-l"], Raised (OSError 2))];
                    sys_stdout := [] |})) by reflexivity.
  split; [exact H|]; split; [reflexivity|].
  exact (proj1 (@run_one_command_live_raises demo_platform (lit "ls -l") true
                  None None (demo_session false) _ (OSError 2) eq_refl H)).
Defined.

Lemma run_many_arguments_dry_run_witness :
  DEBUG (env (demo_session true)) = true
  /\ run_many_arguments (lit "rm -rf TARGET") [lit "a"; lit "b"] TARGET
       (demo_session true)
     = (Returned (PASS (env (demo_session true))),
        {| env := env (demo_session true); host := 0; spawned := [];
           sys_stdout :=
             [NL] ++ lit "Running: ['rm', '-rf', 'a']" ++ [NL]
               ++ [NL] ++ lit "Running: ['rm', '-rf', 'b']" ++ [NL] |}).
Proof.
  split; [reflexivity|].
  refine (eq_trans
            (@run_many_arguments_dry_run demo_platform (lit "rm -rf TARGET")
               TARGET [lit "a"; lit "b"] (demo_session true) _ eq_refl _ _) _).
  - discriminate.
  - discriminate.
  - repeat constructor; eexists; reflexivity.
  - reflexivity.
Defined.

Lemma run_many_arguments_marker_absent_witness :
  TARGET <> []
  /\ run_many_arguments (lit "true now") [lit "a"; lit "b"] TARGET
       (demo_session false)
     = run_each [lit "true now"; lit "true now"] None (demo_session false).
Proof.
  assert (Hm : TARGET <> []) by discriminate.
  split; [exact Hm|].
  refine (@run_many_arguments_marker_absent demo_platform (lit "true now")
            TARGET [lit "a"; lit "b"] (demo_session false) Hm _).
  intros H.
  repeat (apply occurs_cons_inv in H;
          destruct H as [H|H]; [vm_compute in H; discriminate H|]).
  apply occurs_length in H; simpl in H; lia.
Defined.

Lemma run_many_arguments_after_failure_witness :
  run_many_arguments (lit "TARGET now") [lit "true"; lit "false"] TARGET
    (demo_session false)
  = run_many_arguments (lit "TARGET now")
      ([lit "true"; lit "false"] ++ [lit "true"; lit "true"]) TARGET
      (demo_session false).
Proof.
  symmetry.
  refine (eq_trans
            (@run_many_arguments_after_failure demo_platform (lit "TARGET now")
               TARGET [lit "true"; lit "false"] [lit "true"; lit "true"]
               (demo_session false)
               (snd (run_many_arguments (lit "TARGET now")
                       [lit "true"; lit "false"] TARGET (demo_session false)))
               (Returned (FAIL (env (demo_session false)))) _ _ _) _).
  - discriminate.
  - reflexivity.
  - left; reflexivity.
  - reflexivity.
Defined.

(** X21.  For a host on the required major version the check is right:
    it returns [None] exactly when the host version is not older than the
    required one, and the message otherwise. *)
Theorem min_python_version_within_major (platform : Platform)
    (v : version_info) (e : Environment) :
  major v = MAJOR e ->
  (min_python_version v e = None
   <-> version_at_least v (MAJOR e) (MINOR e))
  /\ (~ version_at_least v (MAJOR e) (MINOR e) ->
      min_python_version v e
      = Some (lit "Minimum required Python version is "
                ++ str_of_int (MAJOR e) ++ lit "." ++ str_of_int (MINOR e))).
Proof.
  intros Hm.
  assert (Hiff : min_python_version v e = None
                 <-> version_at_least v (MAJOR e) (MINOR e)).
  { rewrite min_python_version_none_iff; unfold version_at_least; lia. }
  split; [exact Hiff|].
  intros Hn; destruct (min_python_version v e) as [msg|] eqn:E.
  - rewrite (min_python_version_message v e msg E); reflexivity.
  - exfalso; apply Hn, Hiff; reflexivity.
Qed.

Lemma min_python_version_within_major_witness :
  major {| major := 3; minor := 11 |} = MAJOR (@Environment_init demo_platform)
  /\ (min_python_version {| major := 3; minor := 11 |}
        (@Environment_init demo_platform) = None
      <-> version_at_least {| major := 3; minor := 11 |} 3 10).
Proof.
  split; [reflexivity|].
  exact (proj1 (@min_python_version_within_major demo_platform
                  {| major := 3; minor := 11 |} Environment_init eq_refl)).
Defined.

(** ** [wrap_tight] *)

Lemma join_In (sep : str) (ls : list str) (c : char) :
  In c (join sep ls) -> In c sep \/ exists l, In l ls /\ In c l.
Proof.
  induction ls as [|l ls IH]; [intros []|].
  destruct ls as [|l' ls].
  - intros H; right; exists l; split; [left; reflexivity | exact H].
  - change (join sep (l :: l' :: ls)) with (l ++ sep ++ join sep (l' :: ls)).
    intros H; apply in_app_or in H; destruct H as [H|H].
    + right; exists l; split; [left; reflexivity | exact H].
    + apply in_app_or in H; destruct H as [H|H]; [left; exact H|].
      destruct (IH H) as [Hs|(x & Hx & Hc)]; [left; exact Hs|].
      right; exists x; split; [right; exact Hx | exact Hc].
Qed.

Lemma join_cons_head (sep : str) (l : str) (ls : list str) :
  exists tail, join sep (l :: ls) = l ++ tail.
Proof.
  destruct ls as [|l' ls]; [exists []; rewrite app_nil_r; reflexivity|].
  eexists; reflexivity.
Qed.

Lemma app_last_of_second {A : Type} (x y t : list A) (c : A) :
  y <> [] -> x ++ y = t ++ [c] -> exists t', y = t' ++ [c].
Proof.
  intros Hy H; destruct (exists_last Hy) as (t' & c' & ->).
  rewrite app_assoc in H; apply app_inj_tail in H; destruct H as [_ ->].
  exists t'; reflexivity.
Qed.

Lemma join_label_text_trimmed (ls : list str) :
  Forall label_text ls -> trimmed (join [SPACE] ls).
Proof.
  intros Hall; split.
  - intros c t H; destruct ls as [|l ls]; [discriminate|].
    inversion Hall as [|? ? (Hne & [Hh _] & _) _]; subst.
    destruct (join_cons_head [SPACE] l ls) as [tail Ht]; rewrite Ht in H.
    destruct l as [|c0 l]; [contradiction|].
    injection H as <- _; exact (Hh c0 l eq_refl).
  - induction ls as [|l ls IH]; intros t c H;
      [destruct t; discriminate|].
    inversion Hall as [|? ? (Hne & [_ Ht] & _) Hls]; subst.
    destruct ls as [|l' ls]; [exact (Ht t c H)|].
    change (join [SPACE] (l :: l' :: ls))
      with (l ++ [SPACE] ++ join [SPACE] (l' :: ls)) in H.
    rewrite app_assoc in H.
    assert (Hy : join [SPACE] (l' :: ls) <> []).
    { inversion Hls as [|? ? (Hne' & _) _]; subst.
      destruct (join_cons_head [SPACE] l' ls) as [tl ->].
      destruct l'; [contradiction | discriminate]. }
    destruct (app_last_of_second _ _ _ _ Hy H) as [t' Ht'].
    exact (IH Hls t' c Ht').
Qed.

(** X13.  The paragraph that [wrap_tight] hands to [textwrap.fill] is one
    line without white space at its ends; cleaning it again changes
    nothing, so wrapping an already cleaned paragraph gives the same
    result as wrapping the original text. *)
Theorem wrap_tight_clean_fixed (msg : str) :
  let clean := wrap_tight_clean msg in
  ~ In NL clean
  /\ trimmed clean
  /\ wrap_tight_clean clean = clean
  /\ forall (textwrap_fill : str -> Z -> outcome str) (columns : Z),
       wrap_tight textwrap_fill clean columns
       = wrap_tight textwrap_fill msg columns.
Proof.
  intros clean.
  pose proof (stripped_tokens_label_text _ (str_split_lines NL msg)) as Hall.
  assert (Hnl : ~ In NL clean).
  { intros H; apply join_In in H; destruct H as [[H|[]]|(l & Hl & Hc)];
      [discriminate H|].
    rewrite Forall_forall in Hall; exact (proj2 (proj2 (Hall l Hl)) Hc). }
  assert (Htr : trimmed clean) by (apply join_label_text_trimmed; exact Hall).
  assert (Hfix : wrap_tight_clean clean = clean).
  { unfold wrap_tight_clean at 1.
    rewrite (str_split_single NL clean Hnl); cbn [stripped_tokens].
    rewrite (str_strip_id clean Htr).
    destruct clean; reflexivity. }
  repeat split; try assumption; try apply Htr.
  intros fill columns; unfold wrap_tight; fold clean; rewrite Hfix.
  reflexivity.
Qed.

(** ** [sync_notebooks] *)

Lemma forallb_plain_app (a b : str) :
  forallb plain_char (a ++ b) = forallb plain_char a && forallb plain_char b.
Proof. apply forallb_app. Qed.

Section CallerFacts.

Context {platform : Platform} {path_text : PathText platform}.

(** X14.  In live mode, when the texts of the home and system paths are
    made of plain characters, [sync_notebooks] runs [rsync] once, with
    exactly six arguments: the hidden repository with its trailing slash,
    the notebooks directory, [-rc], the exclusion file, [--delete] and
    [--delete-excluded]. *)
Theorem sync_notebooks_arguments (s : Session) :
  DEBUG (env s) = false ->
  forallb plain_char (Path_str (HOME (env s))) = true ->
  forallb plain_char (Path_str (SYSTEM (env s))) = true ->
  let argv :=
    [ lit "rsync";
      Path_str (HOME (env s)) ++ lit "/.notebooksrepo/";
      Path_str (HOME (env s)) ++ lit "/notebooks";
      lit "-rc";
      lit "--exclude-from=" ++ Path_str (SYSTEM (env s))
        ++ lit "/rsync_exclude.txt";
      lit "--delete";
      lit "--delete-excluded" ] in
  spawned (snd (sync_notebooks s))
  = spawned s ++ [(argv, fst (subprocess_run argv true None None (host s)))].
Proof.
  intros Hd Hh Hs argv.
  assert (Hw : Forall plain_word argv).
  { unfold argv; repeat constructor; try discriminate;
      rewrite ?forallb_plain_app, ?Hh, ?Hs; try reflexivity.
    - destruct (Path_str (HOME (env s))); discriminate.
    - destruct (Path_str (HOME (env s))); discriminate. }
  unfold sync_notebooks, bind, gets.
  match goal with
  | |- context [run_one_command ?c true None None s] =>
      replace c with (join [SPACE] argv)
  end.
  - exact (proj1 (run_one_command_words argv true None None s Hd Hw)).
  - unfold argv; cbn [join]; rewrite <- !app_assoc; reflexivity.
Qed.

End CallerFacts.

Lemma sync_notebooks_arguments_witness :
  DEBUG (env (demo_session false)) = false
  /\ map fst (spawned (snd (@sync_notebooks demo_platform demo_path_text
                              (demo_session false))))
     = [[ lit "rsync"; lit "/home/user/.notebooksrepo/";
          lit "/home/user/notebooks"; lit "-rc";
          lit "--exclude-from=/home/user/ubuntu/system/rsync_exclude.txt";
          lit "--delete"; lit "--delete-excluded" ]].
Proof.
  split; [reflexivity|].
  rewrite (@sync_notebooks_arguments demo_platform demo_path_text
             (demo_session false) eq_refl eq_refl eq_refl).
  reflexivity.
Defined.

(** ** A label and a command per step *)

Section StepFacts.

Context {platform : Platform} {path_text : PathText platform}.

Lemma on_labels_next_cons (x : str) (l : list str) (w : nat) (s : Session) :
  on_labels Labels_next {| labels := x :: l; pad := w |} s
  = (Returned (tt, {| labels := l; pad := w |}),
     {| env := env s; host := host s; spawned := spawned s;
        sys_stdout := sys_stdout s ++ ljust_dots x w |}).
Proof. reflexivity. Qed.

Lemma on_labels_next_nil (w : nat) (s : Session) :
  on_labels Labels_next {| labels := []; pad := w |} s
  = (Raised ExhaustedListError : outcome (unit * Labels), s).
Proof. destruct s; reflexivity. Qed.

Lemma label_and_run_steps (commands : list str) :
  forall (q : Labels) (s : Session),
    DEBUG (env s) = false ->
    length commands <= length (labels q) ->
    (forall cmd, In cmd commands ->
       exists argv,
         shlex_split cmd = Returned argv
         /\ forall h, exists r h',
              subprocess_run argv true None None h = (Returned r, h')) ->
    exists runs s',
      label_and_run commands q s
      = (Returned {| labels := skipn (length commands) (labels q);
                     pad := pad q |}, s')
      /\ spawned s'
         = spawned s ++ map (fun p => (fst p, Returned (snd p))) runs
      /\ Forall2 (fun cmd p => shlex_split cmd = Returned (fst p))
           commands runs
      /\ sys_stdout s'
         = sys_stdout s
             ++ concat (map (step_line (env s) (pad q))
                          (combine (labels q) runs))
      /\ DEBUG (env s') = false
      /\ PASS (env s') = PASS (env s) /\ FAIL (env s') = FAIL (env s).
Proof.
  induction commands as [|cmd cs IH]; intros q s Hd Hlen Hrun.
  - exists [], s; destruct q as [l w]; cbn [label_and_run ret length skipn].
    split; [reflexivity|]; split; [cbn [map]; rewrite app_nil_r; reflexivity|].
    split; [constructor|]; split; [|auto].
    destruct l; cbn [labels combine map concat];
      rewrite app_nil_r; reflexivity.
  - destruct q as [[|x l] w]; cbn [labels pad length] in *; [lia|].
    destruct (Hrun cmd (or_introl eq_refl)) as (argv & Hs & Hex).
    destruct (Hex (host s)) as (r & h' & Hr).
    cbn [label_and_run]; unfold bind at 1; rewrite on_labels_next_cons.
    unfold bind at 1.
    match goal with
    | |- context [run_one_command cmd true None None ?s1] =>
        rewrite (run_one_command_live_eq cmd true None None s1 argv r h'
                   Hd Hs Hr)
    end.
    cbn [env host spawned sys_stdout]; unfold bind at 1, print, modify.
    cbn [env host spawned sys_stdout snd].
    match goal with
    | |- context [label_and_run cs ?q1 ?s1] =>
        destruct (IH q1 s1) as (runs & s' & Hloop & Hsp & Hf2 & Hout & Hd'
                                & Hp & Hf)
    end; [exact Hd | cbn [labels]; lia
          | intros c Hc; apply Hrun; right; exact Hc |].
    exists ((argv, r) :: runs), s'; cbn [labels pad env] in *.
    split; [exact Hloop|]; split.
    { rewrite Hsp; cbn [spawned map fst snd]; rewrite <- app_assoc.
      reflexivity. }
    split; [constructor; [exact Hs | exact Hf2]|]; split.
    { rewrite Hout; cbn [sys_stdout combine map concat].
      change (step_line (set_RESULT (Some r) (env s)) w)
        with (step_line (env s) w).
      generalize (concat (map (step_line (env s) w) (combine l runs))).
      intros tail; unfold step_line, verdict_of; cbn [fst snd].
      rewrite <- !app_assoc; reflexivity. }
    auto.
Qed.

(** X15.  In live mode, with a label for every command and command lines
    that can all be run, the loop "next label, run, print the glyph" runs
    every command, in order, whatever the exit codes of the ones before;
    it prints one line per step, the padded label followed by the glyph of
    that step's exit code, and hands back the queue without the labels
    used. *)
Theorem label_and_run_live (commands : list str) :
  forall (q : Labels) (s : Session),
    DEBUG (env s) = false ->
    length commands <= length (labels q) ->
    (forall cmd, In cmd commands ->
       exists argv,
         shlex_split cmd = Returned argv
         /\ forall h, exists r h',
              subprocess_run argv true None None h = (Returned r, h')) ->
    exists runs s',
      label_and_run commands q s
      = (Returned {| labels := skipn (length commands) (labels q);
                     pad := pad q |}, s')
      /\ spawned s'
         = spawned s ++ map (fun p => (fst p, Returned (snd p))) runs
      /\ Forall2 (fun cmd p => shlex_split cmd = Returned (fst p))
           commands runs
      /\ sys_stdout s'
         = sys_stdout s
             ++ concat (map (step_line (env s) (pad q))
                          (combine (labels q) runs))
      /\ DEBUG (env s') = false
      /\ PASS (env s') = PASS (env s) /\ FAIL (env s') = FAIL (env s).
Proof. exact (label_and_run_steps commands). Qed.

End StepFacts.

Section StepFactsMore.

Context {platform : Platform} {path_text : PathText platform}.

(** X16.  With fewer labels than commands the same loop runs one command
    per label, then [next] raises [ExhaustedListError]: the command of
    that step, and every later one, is not run. *)
Theorem label_and_run_short (commands : list str) :
  forall (q : Labels) (s : Session),
    DEBUG (env s) = false ->
    length (labels q) < length commands ->
    (forall cmd, In cmd commands ->
       exists argv,
         shlex_split cmd = Returned argv
         /\ forall h, exists r h',
              subprocess_run argv true None None h = (Returned r, h')) ->
    exists runs s',
      label_and_run commands q s = (Raised ExhaustedListError, s')
      /\ length runs = length (labels q)
      /\ spawned s'
         = spawned s ++ map (fun p => (fst p, Returned (snd p))) runs
      /\ Forall2 (fun cmd p => shlex_split cmd = Returned (fst p))
           (firstn (length (labels q)) commands) runs.
Proof.
  induction commands as [|cmd cs IH]; intros q s Hd Hlen Hrun;
    [simpl in Hlen; lia|].
  destruct q as [[|x l] w]; cbn [labels pad length] in *.
  - exists [], s; cbn [label_and_run]; unfold bind at 1.
    rewrite on_labels_next_nil; cbn [map firstn].
    rewrite app_nil_r; repeat split; constructor.
  - destruct (Hrun cmd (or_introl eq_refl)) as (argv & Hs & Hex).
    destruct (Hex (host s)) as (r & h' & Hr).
    cbn [label_and_run]; unfold bind at 1; rewrite on_labels_next_cons.
    unfold bind at 1.
    match goal with
    | |- context [run_one_command cmd true None None ?s1] =>
        rewrite (run_one_command_live_eq cmd true None None s1 argv r h'
                   Hd Hs Hr)
    end.
    cbn [env host spawned sys_stdout]; unfold bind at 1, print, modify.
    cbn [env host spawned sys_stdout snd].
    match goal with
    | |- context [label_and_run cs ?q1 ?s1] =>
        destruct (IH q1 s1) as (runs & s' & Hloop & Hn & Hsp & Hf2)
    end; [exact Hd | cbn [labels]; lia
          | intros c Hc; apply Hrun; right; exact Hc |].
    exists ((argv, r) :: runs), s'; cbn [labels] in *.
    split; [exact Hloop|]; split; [simpl; lia|]; split.
    + rewrite Hsp; cbn [spawned map fst snd]; rewrite <- app_assoc.
      reflexivity.
    + cbn [firstn]; constructor; [exact Hs | exact Hf2].
Qed.

Lemma label_and_run_app (a b : list str) :
  forall (q : Labels) (s : Session),
    label_and_run (a ++ b) q s
    = (q' <- label_and_run a q ;; label_and_run b q') s.
Proof.
  induction a as [|cmd a IH]; intros q s; [reflexivity|].
  cbn [app label_and_run]; unfold bind.
  destruct (on_labels Labels_next q s) as [[r|x] s1]; [|reflexivity].
  destruct (run_one_command cmd true None None s1) as [[v|x] s2];
    [|reflexivity].
  destruct (print v s2) as [[[]|x] s3]; [|reflexivity].
  rewrite IH; reflexivity.
Qed.

Lemma label_and_run_words (wordss : list (list str)) (q : Labels)
    (s : Session) :
  DEBUG (env s) = false ->
  length wordss <= length (labels q) ->
  Forall (Forall plain_word) wordss ->
  (forall argv h, exists r h',
      subprocess_run argv true None None h = (Returned r, h')) ->
  exists runs s',
    label_and_run (map (join [SPACE]) wordss) q s
    = (Returned {| labels := skipn (length wordss) (labels q);
                   pad := pad q |}, s')
    /\ map fst runs = wordss
    /\ spawned s' = spawned s ++ map (fun p => (fst p, Returned (snd p))) runs
    /\ sys_stdout s'
       = sys_stdout s
           ++ concat (map (step_line (env s) (pad q))
                        (combine (labels q) runs)).
Proof.
  intros Hd Hlen Hw Hrun.
  destruct (label_and_run_steps (map (join [SPACE]) wordss) q s Hd)
    as (runs & s' & Hloop & Hsp & Hf2 & Hout & _).
  - rewrite length_map; exact Hlen.
  - intros cmd Hc; apply in_map_iff in Hc; destruct Hc as (ws & <- & Hin).
    exists ws; split; [|apply Hrun].
    apply shlex_split_plain_words.
    rewrite Forall_forall in Hw; exact (Hw ws Hin).
  - exists runs, s'; rewrite length_map in Hloop.
    split; [exact Hloop|]; split; [|split; assumption].
    clear Hloop Hsp Hout Hlen; revert runs Hf2 Hw.
    induction wordss as [|ws wordss IH]; intros runs Hf2 Hw;
      inversion Hf2 as [|? p ? runs' Hp Hrest]; subst; [reflexivity|].
    inversion Hw as [|? ? Hws Hwss]; subst.
    rewrite (shlex_split_plain_words ws Hws) in Hp.
    cbn [map]; rewrite (IH runs' Hrest Hwss); congruence.
Qed.

End StepFactsMore.

(** ** cacheburn.py: [burn_it_up] *)

Lemma startswith_app_disjoint (old x t : str) (c : char) :
  ~ In c old -> startswith old (x ++ c :: t) = true -> startswith old x = true.
Proof.
  revert x; induction old as [|a old IH]; intros x Hc H; [reflexivity|].
  destruct x as [|b x]; simpl in H; apply andb_true_iff in H;
    destruct H as [Hab H].
  - exfalso; apply Hc; left; apply N.eqb_eq; exact Hab.
  - simpl; rewrite Hab; apply IH; [|exact H].
    intros Hin; apply Hc; right; exact Hin.
Qed.

(** An occurrence cannot reach across a character that is not in it. *)
Lemma occurs_sep (old a b : str) (c : char) :
  ~ In c old -> occurs old (a ++ c :: b) -> occurs old a \/ occurs old b.
Proof.
  intros Hc (before & after & H); revert before H.
  induction a as [|x a IH]; intros before H.
  - destruct before as [|y before].
    + destruct old as [|o old]; [left; exists [], []; reflexivity|].
      exfalso; apply Hc; left; simpl in H; congruence.
    + right; exists before, after; simpl in H; congruence.
  - destruct before as [|y before].
    + left; apply startswith_occurs.
      apply (startswith_app_disjoint old (x :: a) b c Hc).
      apply startswith_iff; exists after; exact H.
    + simpl in H; injection H as _ H.
      destruct (IH before H) as [Ha|Hb]; [left; apply occurs_cons | right];
        assumption.
Qed.

Lemma str_replace_once (before after old new : str) :
  old <> [] ->
  ~ occurs old (before ++ removelast old) ->
  ~ occurs old after ->
  str_replace (before ++ old ++ after) old new = before ++ new ++ after.
Proof.
  intros Ho Hb Ha.
  exact (str_replace_join old new [before; after] Ho (conj Hb Ha)).
Qed.

Ltac closed_absent H :=
  repeat (apply occurs_cons_inv in H;
          destruct H as [H|H]; [vm_compute in H; discriminate H|]);
  apply occurs_length in H; vm_compute in H; lia.

Lemma find_dir_command (home name : str) :
  ~ occurs (lit "DIR") home ->
  str_replace
    (lit "find " ++ home ++ lit " -name DIR -type d -exec rm -rvf {} ; -prune")
    (lit "DIR") name
  = join [SPACE]
      [ lit "find"; home; lit "-name"; name; lit "-type"; lit "d";
        lit "-exec"; lit "rm"; lit "-rvf"; lit "{}"; lit ";"; lit "-prune" ].
Proof.
  intros Hh.
  change (lit "find " ++ home
            ++ lit " -name DIR -type d -exec rm -rvf {} ; -prune")
    with (lit "find " ++ home
            ++ lit " -name " ++ lit "DIR"
            ++ lit " -type d -exec rm -rvf {} ; -prune").
  rewrite !app_assoc, <- (app_assoc _ (lit "DIR")).
  rewrite str_replace_once.
  - cbn [join]; rewrite <- !app_assoc; reflexivity.
  - discriminate.
  - rewrite <- !app_assoc.
    change (lit "find " ++ home ++ lit " -name " ++ removelast (lit "DIR"))
      with (lit "find" ++ SPACE :: home ++ SPACE :: lit "-name"
              ++ SPACE :: lit "DI").
    intros H.
    apply occurs_sep in H; [|vm_compute; intuition discriminate].
    destruct H as [H|H]; [closed_absent H|].
    apply occurs_sep in H; [|vm_compute; intuition discriminate].
    destruct H as [H|H]; [contradiction|].
    apply occurs_sep in H; [|vm_compute; intuition discriminate].
    destruct H as [H|H]; closed_absent H.
  - intros H; closed_absent H.
Qed.

Lemma find_file_command (home name : str) :
  ~ occurs (lit "FILE") home ->
  str_replace (lit "find " ++ home ++ lit " -name FILE -type f -delete")
    (lit "FILE") name
  = join [SPACE]
      [ lit "find"; home; lit "-name"; name; lit "-type"; lit "f";
        lit "-delete" ].
Proof.
  intros Hh.
  change (lit "find " ++ home ++ lit " -name FILE -type f -delete")
    with (lit "find " ++ home
            ++ lit " -name " ++ lit "FILE" ++ lit " -type f -delete").
  rewrite !app_assoc, <- (app_assoc _ (lit "FILE")).
  rewrite str_replace_once.
  - cbn [join]; rewrite <- !app_assoc; reflexivity.
  - discriminate.
  - rewrite <- !app_assoc.
    change (lit "find " ++ home ++ lit " -name " ++ removelast (lit "FILE"))
      with (lit "find" ++ SPACE :: home ++ SPACE :: lit "-name"
              ++ SPACE :: lit "FIL").
    intros H.
    apply occurs_sep in H; [|vm_compute; intuition discriminate].
    destruct H as [H|H]; [closed_absent H|].
    apply occurs_sep in H; [|vm_compute; intuition discriminate].
    destruct H as [H|H]; [contradiction|].
    apply occurs_sep in H; [|vm_compute; intuition discriminate].
    destruct H as [H|H]; closed_absent H.
  - intros H; closed_absent H.
Qed.

Lemma burn_it_up_labels_init :
  Labels_init burn_it_up_labels
  = Returned
      {| labels :=
           [ lit "Deleting __pycache__ directories";
             lit "Deleting .pytest_cache directories";
             lit "Deleting .ipynb_checkpoints directories";
             lit "Zapping pesky Icon files";
             lit "Crunching annoying desktop.ini files" ];
         pad := 42 |}.
Proof. vm_compute; reflexivity. Qed.

Section BurnFacts.

Context {platform : Platform} {path_text : PathText platform}.

(** X17.  In live mode, on a host where commands run to their end, with a
    shares directory whose path is a plain word that names neither [DIR]
    nor [FILE], [burn_it_up] runs five [find] commands: the three cache
    directory names, then the two file patterns.  All five are run
    whatever their exit codes, each after its label, and the five lines
    printed are the padded labels with the glyphs of these exit codes. *)
Theorem burn_it_up_live (s : Session) :
  let home := Path_str (Path_truediv (HOME (env s)) (lit "shares")) in
  let find_dir name :=
    [ lit "find"; home; lit "-name"; name; lit "-type"; lit "d";
      lit "-exec"; lit "rm"; lit "-rvf"; lit "{}"; lit ";"; lit "-prune" ] in
  DEBUG (env s) = false ->
  plain_word home ->
  ~ occurs (lit "DIR") home ->
  ~ occurs (lit "FILE") home ->
  (forall argv h, exists r h',
      subprocess_run argv true None None h = (Returned r, h')) ->
  exists runs s',
    burn_it_up s = (Returned tt, s')
    /\ map fst runs
       = [ find_dir (lit "__pycache__");
           find_dir (lit ".pytest_cache");
           find_dir (lit ".ipynb_checkpoints");
           [ lit "find"; home; lit "-name"; lit "Icon?"; lit "-size"; lit "0";
             lit "-type"; lit "f"; lit "-delete" ];
           [ lit "find"; home; lit "-name"; lit "desktop.ini";
             lit "-type"; lit "f"; lit "-delete" ] ]
    /\ spawned s' = spawned s ++ map (fun p => (fst p, Returned (snd p))) runs
    /\ sys_stdout s'
       = sys_stdout s
           ++ concat
                (map (step_line (env s) 42)
                   (combine
                      [ lit "Deleting __pycache__ directories";
                        lit "Deleting .pytest_cache directories";
                        lit "Deleting .ipynb_checkpoints directories";
                        lit "Zapping pesky Icon files";
                        lit "Crunching annoying desktop.ini files" ]
                      runs)).
Proof.
  intros home find_dir Hd Hhome Hdir Hfile Hrun.
  set (q := {| labels :=
                 [ lit "Deleting __pycache__ directories";
                   lit "Deleting .pytest_cache directories";
                   lit "Deleting .ipynb_checkpoints directories";
                   lit "Zapping pesky Icon files";
                   lit "Crunching annoying desktop.ini files" ];
               pad := 42 |}).
  set (first := [ find_dir (lit "__pycache__"); find_dir (lit ".pytest_cache");
                  find_dir (lit ".ipynb_checkpoints") ]).
  set (second := [ [ lit "find"; home; lit "-name"; lit "Icon?"; lit "-size";
                     lit "0"; lit "-type"; lit "f"; lit "-delete" ];
                   [ lit "find"; home; lit "-name"; lit "desktop.ini";
                     lit "-type"; lit "f"; lit "-delete" ] ]).
  assert (Hplain : Forall (Forall plain_word) (first ++ second)).
  { destruct Hhome as [Hne Hch].
    unfold first, second, find_dir; cbn [app].
    repeat constructor; try discriminate; try exact Hne; try exact Hch. }
  destruct (label_and_run_words (first ++ second) q s Hd
              ltac:(cbn; lia) Hplain Hrun)
    as (runs & s' & Hloop & Hargv & Hsp & Hout).
  exists runs, s'; split; [|split; [exact Hargv | split; assumption]].
  rewrite map_app, label_and_run_app in Hloop.
  unfold burn_it_up, bind at 1, call.
  rewrite burn_it_up_labels_init; fold q; unfold bind at 1, gets; cbv zeta.
  fold home.
  rewrite !(find_dir_command home _ Hdir), !(find_file_command home _ Hfile).
  unfold bind in *.
  change [ join [SPACE] [lit "find"; home; lit "-name"; lit "__pycache__";
                         lit "-type"; lit "d"; lit "-exec"; lit "rm";
                         lit "-rvf"; lit "{}"; lit ";"; lit "-prune"];
           join [SPACE] [lit "find"; home; lit "-name"; lit ".pytest_cache";
                         lit "-type"; lit "d"; lit "-exec"; lit "rm";
                         lit "-rvf"; lit "{}"; lit ";"; lit "-prune"];
           join [SPACE] [lit "find"; home; lit "-name";
                         lit ".ipynb_checkpoints"; lit "-type"; lit "d";
                         lit "-exec"; lit "rm"; lit "-rvf"; lit "{}"; lit ";";
                         lit "-prune"] ]
    with (map (join [SPACE]) first).
  destruct (label_and_run (map (join [SPACE]) first) q s) as [[q1|x] s1];
    [|discriminate].
  replace [ join [SPACE] [lit "find"; home; lit "-name"; lit "Icon? -size 0";
                          lit "-type"; lit "f"; lit "-delete"];
            join [SPACE] [lit "find"; home; lit "-name"; lit "desktop.ini";
                          lit "-type"; lit "f"; lit "-delete"] ]
    with (map (join [SPACE]) second)
    by (unfold second; cbn [map join]; reflexivity).
  rewrite Hloop; reflexivity.
Qed.

End BurnFacts.

Lemma burn_it_up_live_witness :
  DEBUG (env careful_session) = false
  /\ exists runs s',
       @burn_it_up careful_platform careful_path_text careful_session
       = (Returned tt, s')
       /\ map (fun p => returncode (snd p)) runs = [0; 0; 0; 1; 1]%Z
       /\ spawned s' = map (fun p => (fst p, Returned (snd p))) runs.
Proof.
  split; [reflexivity|].
  destruct (@burn_it_up_live careful_platform careful_path_text
              careful_session)
    as (runs & s' & Hrun & Hargv & Hsp & Hout).
  - reflexivity.
  - split; [discriminate | reflexivity].
  - intros H; closed_absent H.
  - intros H; closed_absent H.
  - intros argv h; eexists; eexists; reflexivity.
  - exists runs, s'; split; [exact Hrun|]; split; [|exact Hsp].
    assert (Hs' : spawned s'
                  = spawned (snd (@burn_it_up careful_platform
                                    careful_path_text careful_session)))
      by (rewrite Hrun; reflexivity).
    rewrite Hsp in Hs'; vm_compute in Hs'.
    repeat (destruct runs as [|[? ?] runs]; [discriminate Hs'|]).
    destruct runs; [|discriminate Hs'].
    injection Hs' as H1 H2 H3 H4 H5 H6 H7 H8 H9 H10; subst; reflexivity.
Defined.

(** A home directory that names [DIR]: the path itself is rewritten. *)
Example find_dir_command_rewrites_path :
  shlex_split
    (str_replace
       (lit "find /home/DIRK/shares -name DIR -type d -exec rm -rvf {} ; -prune")
       (lit "DIR") (lit "__pycache__"))
  = Returned [ lit "find"; lit "/home/__pycache__K/shares"; lit "-name";
               lit "__pycache__"; lit "-type"; lit "d"; lit "-exec"; lit "rm";
               lit "-rvf"; lit "{}"; lit ";"; lit "-prune" ].
Proof. vm_compute; reflexivity. Qed.

(** ** The step loop on the small platform *)

Lemma label_and_run_live_witness :
  DEBUG (env (demo_session false)) = false
  /\ exists (runs : list (list str * CompletedProcess)) s',
       @label_and_run demo_platform [lit "true a"; lit "false b"]
         {| labels := [lit "one"; lit "two"; lit "three"]; pad := 8 |}
         (demo_session false)
       = (Returned {| labels := [lit "three"]; pad := 8 |}, s')
       /\ Forall2 (fun cmd p => shlex_split cmd = Returned (fst p))
            [lit "true a"; lit "false b"] runs.
Proof.
  split; [reflexivity|].
  destruct (@label_and_run_live demo_platform [lit "true a"; lit "false b"]
              {| labels := [lit "one"; lit "two"; lit "three"]; pad := 8 |}
              (demo_session false))
    as (runs & s' & Hloop & _ & Hf2 & _).
  - reflexivity.
  - simpl; lia.
  - intros cmd [<-|[<-|[]]]; eexists; (split; [reflexivity|]);
      intros h; eexists; eexists; reflexivity.
  - exists runs, s'; split; [exact Hloop | exact Hf2].
Defined.

Lemma label_and_run_short_witness :
  1 < 2
  /\ exists (runs : list (list str * CompletedProcess)) s',
       @label_and_run demo_platform [lit "true a"; lit "false b"]
         {| labels := [lit "one"]; pad := 6 |} (demo_session false)
       = (Raised ExhaustedListError, s')
       /\ length runs = 1.
Proof.
  split; [lia|].
  destruct (@label_and_run_short demo_platform [lit "true a"; lit "false b"]
              {| labels := [lit "one"]; pad := 6 |} (demo_session false))
    as (runs & s' & Hloop & Hn & _).
  - reflexivity.
  - simpl; lia.
  - intros cmd [<-|[<-|[]]]; eexists; (split; [reflexivity|]);
      intros h; eexists; eexists; reflexivity.
  - exists runs, s'; split; [exact Hloop | exact Hn].
Defined.

(** ** [clean_str] *)

Ltac Zify.zify_post_hook ::= Z.to_euclidean_division_equations.

Ltac n_bool :=
  repeat (match goal with
          | |- context [N.ltb ?a ?b] => destruct (N.ltb_spec a b); try lia
          | |- context [N.leb ?a ?b] => destruct (N.leb_spec a b); try lia
          | |- context [N.eqb ?a ?b] => destruct (N.eqb_spec a b); try lia
          end; cbn [andb orb negb]).

Ltac n_bool_in H :=
  repeat (match type of H with
          | context [N.ltb ?a ?b] => destruct (N.ltb_spec a b)
          | context [N.leb ?a ?b] => destruct (N.leb_spec a b)
          | context [N.eqb ?a ?b] => destruct (N.eqb_spec a b)
          end; cbn [andb orb negb] in H; try discriminate H).

Lemma utf8_decode_1 (b0 : N) (rest : list N) :
  (b0 < 128)%N ->
  utf8_decode (b0 :: rest) = option_map (cons b0) (utf8_decode rest).
Proof. intros; cbn [utf8_decode]; n_bool; reflexivity. Qed.

Lemma utf8_decode_2 (b0 b1 : N) (rest : list N) :
  (194 <= b0 <= 223)%N -> (128 <= b1 <= 191)%N ->
  utf8_decode (b0 :: b1 :: rest)
  = option_map (cons ((b0 - 192) * 64 + (b1 - 128))%N) (utf8_decode rest).
Proof.
  intros; cbn [utf8_decode]; unfold utf8_continuation; n_bool; reflexivity.
Qed.

Lemma utf8_decode_3 (b0 b1 b2 : N) (rest : list N) :
  (224 <= b0 <= 239)%N -> (128 <= b1 <= 191)%N -> (128 <= b2 <= 191)%N ->
  (b0 = 224 -> 160 <= b1)%N -> (b0 = 237 -> b1 <= 159)%N ->
  utf8_decode (b0 :: b1 :: b2 :: rest)
  = option_map (cons ((b0 - 224) * 4096 + (b1 - 128) * 64 + (b2 - 128))%N)
      (utf8_decode rest).
Proof.
  intros; cbn [utf8_decode]; unfold utf8_continuation; n_bool; reflexivity.
Qed.

Lemma utf8_decode_4 (b0 b1 b2 b3 : N) (rest : list N) :
  (240 <= b0 <= 244)%N -> (128 <= b1 <= 191)%N -> (128 <= b2 <= 191)%N ->
  (128 <= b3 <= 191)%N ->
  (b0 = 240 -> 144 <= b1)%N -> (b0 = 244 -> b1 <= 143)%N ->
  utf8_decode (b0 :: b1 :: b2 :: b3 :: rest)
  = option_map
      (cons ((b0 - 240) * 262144 + (b1 - 128) * 4096 + (b2 - 128) * 64
             + (b3 - 128))%N) (utf8_decode rest).
Proof.
  intros; cbn [utf8_decode]; unfold utf8_continuation; n_bool; reflexivity.
Qed.

Lemma utf8_decode_encode_char (c : char) (bs rest : list N) :
  utf8_encode_char c = Some bs ->
  utf8_decode (bs ++ rest) = option_map (cons c) (utf8_decode rest).
Proof.
  unfold utf8_encode_char.
  destruct (N.ltb_spec c 128).
  { intros Henc.
    assert (bs = [c]) by congruence; subst bs.
    apply utf8_decode_1; assumption. }
  destruct (N.ltb_spec c 2048).
  { intros Henc.
    assert (bs = [192 + c / 64; 128 + c mod 64]%N) by congruence; subst bs.
    refine (eq_trans (utf8_decode_2 _ _ rest _ _) _); try lia.
    f_equal; f_equal; lia. }
  destruct (N.ltb_spec c 65536).
  { destruct (N.leb_spec 55296 c); destruct (N.leb_spec c 57343);
      cbn [andb]; try discriminate; intros Henc;
      (assert (bs = [224 + c / 4096; 128 + (c / 64) mod 64; 128 + c mod 64]%N)
        by congruence); subst bs;
      (refine (eq_trans (utf8_decode_3 _ _ _ rest _ _ _ _ _) _); try lia);
      f_equal; f_equal; lia. }
  destruct (N.ltb_spec c 1114112); [|discriminate].
  intros Henc.
  assert (bs = [240 + c / 262144; 128 + (c / 4096) mod 64;
                128 + (c / 64) mod 64; 128 + c mod 64]%N) by congruence.
  subst bs.
  refine (eq_trans (utf8_decode_4 _ _ _ _ rest _ _ _ _ _ _) _); try lia.
  f_equal; f_equal; lia.
Qed.

Lemma utf8_decode_encode (s : str) (bs : list N) :
  utf8_encode s = Some bs -> utf8_decode bs = Some s.
Proof.
  revert bs; induction s as [|c s IH]; intros bs; cbn [utf8_encode].
  - intros H; injection H as <-; reflexivity.
  - destruct (utf8_encode_char c) as [cb|] eqn:Ec; [|discriminate].
    destruct (utf8_encode s) as [rest|]; [|discriminate].
    intros H; assert (bs = cb ++ rest) by congruence; subst bs.
    rewrite (utf8_decode_encode_char c cb rest Ec), (IH rest eq_refl).
    reflexivity.
Qed.

(** X18.  [clean_str] undoes the UTF-8 encoding of a text, up to the white
    space at its end: on the bytes of [s.encode('utf-8')] it returns
    [s.rstrip()]. *)
Theorem clean_str_encode (s : str) (bs : list N) :
  utf8_encode s = Some bs ->
  utf8_decode bs = Some s /\ clean_str bs = Some (str_rstrip s).
Proof.
  intros H; unfold clean_str; rewrite (utf8_decode_encode s bs H).
  split; reflexivity.
Qed.

Lemma clean_str_encode_witness :
  utf8_encode (lit "amd64" ++ [233; 8364; 128512; NL]%N)
  = Some (lit "amd64" ++ [195; 169; 226; 130; 172; 240; 159; 152; 128; 10]%N)
  /\ clean_str (lit "amd64" ++ [195; 169; 226; 130; 172; 240; 159; 152; 128; 10]%N)
     = Some (lit "amd64" ++ [233; 8364; 128512]%N).
Proof.
  assert (H : utf8_encode (lit "amd64" ++ [233; 8364; 128512; NL]%N)
              = Some (lit "amd64"
                        ++ [195; 169; 226; 130; 172; 240; 159; 152; 128; 10]%N))
    by reflexivity.
  split; [exact H|].
  exact (proj2 (clean_str_encode _ _ H)).
Defined.

(** X19.  What [clean_str] returns does not end in white space, and it is
    the decoded text without a run of white space at its end: nothing
    else is removed, white space at the start stays. *)
Theorem clean_str_trailing (bstr : list N) (t : str) :
  clean_str bstr = Some t ->
  (forall u c, t = u ++ [c] -> isspace c = false)
  /\ exists s ws,
       utf8_decode bstr = Some s
       /\ s = t ++ ws
       /\ Forall (fun c => isspace c = true) ws.
Proof.
  unfold clean_str; destruct (utf8_decode bstr) as [s|]; [|discriminate].
  intros H; injection H as <-; split.
  - intros u c Hu; exact (str_rstrip_last s u c Hu).
  - destruct (str_rstrip_split s) as (ws & Hs & Hws).
    exists s, ws; auto.
Qed.

Lemma clean_str_trailing_witness :
  clean_str (lit "  jammy " ++ [NL]) = Some (lit "  jammy")
  /\ forall u c, lit "  jammy" = u ++ [c] -> isspace c = false.
Proof.
  assert (H : clean_str (lit "  jammy " ++ [NL]) = Some (lit "  jammy"))
    by reflexivity.
  split; [exact H|].
  exact (proj1 (clean_str_trailing _ _ H)).
Defined.

Lemma utf8_decode_bytes (n : nat) :
  forall (bs : list N) (s : str),
    length bs <= n ->
    utf8_decode bs = Some s ->
    Forall (fun b => b <> 192 /\ b <> 193 /\ b < 245)%N bs.
Proof.
  induction n as [|n IH]; intros bs s Hlen H.
  - destruct bs; [constructor | simpl in Hlen; lia].
  - destruct bs as [|b0 r0]; [constructor|].
    cbn [utf8_decode length] in *.
    assert (Hrec : forall r t, length r <= n -> utf8_decode r = Some t ->
                     Forall (fun b => b <> 192 /\ b <> 193 /\ b < 245)%N r)
      by exact IH.
    destruct (N.ltb_spec b0 128).
    { destruct (utf8_decode r0) as [t|] eqn:E; [|discriminate].
      constructor; [lia | apply (Hrec r0 t); [lia | exact E]]. }
    destruct (N.leb_spec 194 b0); destruct (N.leb_spec b0 223);
      cbn [andb] in H; try lia.
    { destruct r0 as [|b1 r1]; [discriminate|].
      unfold utf8_continuation in H.
      destruct (N.leb_spec 128 b1); destruct (N.leb_spec b1 191);
        cbn [andb] in H; try discriminate.
      destruct (utf8_decode r1) as [t|] eqn:E; [|discriminate].
      repeat (constructor; [lia|]).
      apply (Hrec r1 t); [simpl in Hlen; lia | exact E]. }
    { destruct (N.leb_spec 224 b0); destruct (N.leb_spec b0 239);
        cbn [andb] in H; try lia.
      - destruct r0 as [|b1 [|b2 r2]]; try discriminate.
        unfold utf8_continuation in H.
        destruct (N.leb_spec b1 191); destruct (N.leb_spec b2 191);
          [|n_bool_in H; lia ..].
        destruct (utf8_decode r2) as [t|] eqn:E;
          [|n_bool_in H; discriminate H].
        repeat (constructor; [lia|]).
        apply (Hrec r2 t); [simpl in Hlen; lia | exact E].
      - destruct (N.leb_spec 240 b0); destruct (N.leb_spec b0 244);
          cbn [andb] in H; try discriminate; try lia.
        destruct r0 as [|b1 [|b2 [|b3 r3]]]; try discriminate.
        unfold utf8_continuation in H.
        destruct (N.leb_spec b1 191); destruct (N.leb_spec b2 191);
          destruct (N.leb_spec b3 191); [|n_bool_in H; lia ..].
        destruct (utf8_decode r3) as [t|] eqn:E;
          [|n_bool_in H; discriminate H].
        repeat (constructor; [lia|]).
        apply (Hrec r3 t); [simpl in Hlen; lia | exact E]. }
    { n_bool_in H; lia. }
Qed.

(** X20.  The bytes [0xC0], [0xC1] and [0xF5] to [0xFF] never occur in
    UTF-8: wherever one of them stands in the input, [clean_str] fails
    with the decoding error. *)
Theorem clean_str_invalid_byte (bstr : list N) (b : N) :
  In b bstr ->
  (b = 192 \/ b = 193 \/ 245 <= b)%N ->
  clean_str bstr = None.
Proof.
  intros Hin Hb; unfold clean_str.
  destruct (utf8_decode bstr) as [s|] eqn:E; [|reflexivity].
  pose proof (utf8_decode_bytes (length bstr) bstr s (le_n _) E) as Hall.
  rewrite Forall_forall in Hall; specialize (Hall b Hin); lia.
Qed.

Lemma clean_str_invalid_byte_witness :
  In 255%N (lit "ok" ++ [255%N])
  /\ clean_str (lit "ok" ++ [255%N]) = None.
Proof.
  assert (H : In 255%N (lit "ok" ++ [255%N]))
    by (right; right; left; reflexivity).
  split; [exact H|].
  apply (clean_str_invalid_byte _ 255 H); right; right; discriminate.
Defined.
